(** * JupyterHubApp: start-up, proxy supervision and shutdown

    A shallow embedding of [jupyterhub/app.py].  The application object
    ([self]) and the log of everything the application does to the outside
    world are threaded through a small state-and-exception monad; whatever
    lives outside [app.py] (the process table, the sockets, the random
    sources, the helpers of [orm] and [utils]) is gathered in a [World]
    that the run only reads. *)

From stdpp Require Import base gmap list strings pretty.
From Stdlib Require Import ZArith Lia Ascii.

Local Open Scope string_scope.
Local Open Scope list_scope.
Local Open Scope Z_scope.

(** ** Python strings *)

(** [s.startswith(p)] *)
Fixpoint startswith (s p : string) : bool :=
  match p, s with
  | EmptyString, _ => true
  | String _ _, EmptyString => false
  | String c p', String d s' => if Ascii.eqb c d then startswith s' p' else false
  end.

(** [s.endswith(p)]: [p] is [s] itself or ends the tail of [s]. *)
Fixpoint endswith (s p : string) : bool :=
  String.eqb s p ||
  match s with
  | EmptyString => false
  | String _ s' => endswith s' p
  end.

(** Truth value of a string in a condition: [if self.ssl_key:]. *)
Definition truthy (s : string) : bool := negb (String.eqb s "").

(** ["%i" % n] and [str(n)] for an integer. *)
Definition str (n : Z) : string := pretty n.

(** ** Exceptions and outcomes *)

Inductive exn :=
| TraitError (msg : string)
| RuntimeError (msg : string)
| TimeoutError
| AttributeError (attr : string)
| OtherError (msg : string)
| SystemExit (code : Z).

(** What a call comes to: a value, an exception, or a coroutine parked for
    ever on a future that never resolves. *)
Inductive outcome (A : Type) :=
| Ret (a : A)
| Raise (e : exn)
| Hang.
Arguments Ret {A} a.
Arguments Raise {A} e.
Arguments Hang {A}.

(** ** The entities of [orm], as [app.py] builds them *)

Module orm.

(** [orm.Server(...)]: a column that the caller leaves out is [None]. *)
Record Server := {
  ip : string;
  port : Z;
  base_url : option string;
  cookie_secret : option string;
  cookie_name : option string;
}.

Record Hub := { server : Server }.

Record Proxy := {
  public_server : Server;
  api_server : Server;
  auth_token : string;
}.

(** The backend handle of a user: [user.spawner]. *)
Record Spawner := { handle : nat }.

Record User := {
  name : string;
  admin : bool;
  spawner : option Spawner;
}.

Inductive Entity :=
| EUser (u : User)
| EHub (h : Hub)
| EProxy (p : Proxy).

(** A session: [add] queues an entity, [commit] makes the queue durable. *)
Record Session := {
  pending : list Entity;
  committed : list Entity;
}.

(** What opening the database at a URL comes to: the rows that it already
    holds, or a refusal (a URL that cannot be parsed, a file that cannot be
    opened). *)
Inductive Opening :=
| Rows (rows : list Entity)
| Refused (msg : string).

(** [orm.new_session(url)] on a database that holds [rows]: nothing is
    cleared. *)
Definition new_session (rows : list Entity) : Session :=
  {| pending := []; committed := rows |}.

Definition add (e : Entity) (s : Session) : Session :=
  {| pending := pending s ++ [e]; committed := committed s |}.

Definition commit (s : Session) : Session :=
  {| pending := []; committed := committed s ++ pending s |}.

Definition user_of (e : Entity) : option User :=
  match e with EUser u => Some u | _ => None end.

(** [db.query(orm.User)] *)
Definition query_users (s : Session) : list User :=
  omap user_of (committed s ++ pending s).

End orm.

(** ** The world outside [app.py] *)

(** How a [server.wait_up(timeout)] ends. *)
Inductive Probe :=
| Up
| TimedOut
| Failed (msg : string).

(** How the future of a [spawner.stop()] ends. *)
Inductive StopResult :=
| Stopped
| StopFailed (msg : string)
| NeverResolves.

(** What the IO loop runs between [loop.start()] and its end. *)
Inductive LoopItem :=
| Tick
| Request (users : list orm.User).

(** The clock of a run is the number of events logged so far; every answer
    of the world may depend on it. *)
Record World := {
  environ : gmap string string;
  getpid : Z;
  new_token : nat -> string;
  random_hex : nat -> Z -> string;
  spawn_pid : nat -> Z;
  exit_status : nat -> option Z;
  wait_up_result : nat -> orm.Server -> Z -> Probe;
  stop_result : nat -> orm.User -> StopResult;
  path_exists : nat -> string -> bool;
  database : string -> orm.Opening;
  schedule : list LoopItem;
  interrupted : bool;
  (* helpers of this code base that live outside app.py *)
  host : orm.Server -> string;
  url_path_join : string -> string -> string;
}.

(** ** The application object *)

Module logging.
Definition DEBUG : Z := 10.
Definition INFO : Z := 20.
Inductive Level := debug | info | error | critical | fatal.
End logging.

(** A [Popen] object: the pid and the cached [returncode]. *)
Record Popen := {
  pid : Z;
  returncode : option Z;
}.

(** The traits and attributes of [JupyterHubApp].  A trait whose default is
    computed on first read ([proxy_auth_token], [proxy_api_port],
    [cookie_secret]) is [None] until it is configured. *)
Record JupyterHubApp := {
  config_file : string;
  generate_config : bool;
  pid_file : string;
  proxy_check_interval : Z;
  ssl_key : string;
  ssl_cert : string;
  ip : string;
  port : Z;
  base_url : string;
  proxy_cmd : string;
  proxy_auth_token : option string;
  proxy_api_ip : string;
  proxy_api_port : option Z;
  hub_port : Z;
  hub_ip : string;
  hub_prefix : option string;
  cookie_secret : option string;
  db_url : string;
  debug_db : bool;
  admin_users : list string;
  log_level : Z;
  (* attributes set while running *)
  db : option orm.Session;
  hub : option orm.Hub;
  proxy : option orm.Proxy;
  proxy_process : option Popen;
}.

(** Attribute assignment, [self.f = v], one setter per attribute that the
    code assigns. *)
Definition set_db (v : option orm.Session) (a : JupyterHubApp) : JupyterHubApp :=
  {| config_file := config_file a;
     generate_config := generate_config a;
     pid_file := pid_file a;
     proxy_check_interval := proxy_check_interval a;
     ssl_key := ssl_key a;
     ssl_cert := ssl_cert a;
     ip := ip a;
     port := port a;
     base_url := base_url a;
     proxy_cmd := proxy_cmd a;
     proxy_auth_token := proxy_auth_token a;
     proxy_api_ip := proxy_api_ip a;
     proxy_api_port := proxy_api_port a;
     hub_port := hub_port a;
     hub_ip := hub_ip a;
     hub_prefix := hub_prefix a;
     cookie_secret := cookie_secret a;
     db_url := db_url a;
     debug_db := debug_db a;
     admin_users := admin_users a;
     log_level := log_level a;
     db := v;
     hub := hub a;
     proxy := proxy a;
     proxy_process := proxy_process a |}.

Definition set_hub (v : option orm.Hub) (a : JupyterHubApp) : JupyterHubApp :=
  {| config_file := config_file a;
     generate_config := generate_config a;
     pid_file := pid_file a;
     proxy_check_interval := proxy_check_interval a;
     ssl_key := ssl_key a;
     ssl_cert := ssl_cert a;
     ip := ip a;
     port := port a;
     base_url := base_url a;
     proxy_cmd := proxy_cmd a;
     proxy_auth_token := proxy_auth_token a;
     proxy_api_ip := proxy_api_ip a;
     proxy_api_port := proxy_api_port a;
     hub_port := hub_port a;
     hub_ip := hub_ip a;
     hub_prefix := hub_prefix a;
     cookie_secret := cookie_secret a;
     db_url := db_url a;
     debug_db := debug_db a;
     admin_users := admin_users a;
     log_level := log_level a;
     db := db a;
     hub := v;
     proxy := proxy a;
     proxy_process := proxy_process a |}.

Definition set_proxy (v : option orm.Proxy) (a : JupyterHubApp) : JupyterHubApp :=
  {| config_file := config_file a;
     generate_config := generate_config a;
     pid_file := pid_file a;
     proxy_check_interval := proxy_check_interval a;
     ssl_key := ssl_key a;
     ssl_cert := ssl_cert a;
     ip := ip a;
     port := port a;
     base_url := base_url a;
     proxy_cmd := proxy_cmd a;
     proxy_auth_token := proxy_auth_token a;
     proxy_api_ip := proxy_api_ip a;
     proxy_api_port := proxy_api_port a;
     hub_port := hub_port a;
     hub_ip := hub_ip a;
     hub_prefix := hub_prefix a;
     cookie_secret := cookie_secret a;
     db_url := db_url a;
     debug_db := debug_db a;
     admin_users := admin_users a;
     log_level := log_level a;
     db := db a;
     hub := hub a;
     proxy := v;
     proxy_process := proxy_process a |}.

Definition set_proxy_process (v : option Popen) (a : JupyterHubApp) : JupyterHubApp :=
  {| config_file := config_file a;
     generate_config := generate_config a;
     pid_file := pid_file a;
     proxy_check_interval := proxy_check_interval a;
     ssl_key := ssl_key a;
     ssl_cert := ssl_cert a;
     ip := ip a;
     port := port a;
     base_url := base_url a;
     proxy_cmd := proxy_cmd a;
     proxy_auth_token := proxy_auth_token a;
     proxy_api_ip := proxy_api_ip a;
     proxy_api_port := proxy_api_port a;
     hub_port := hub_port a;
     hub_ip := hub_ip a;
     hub_prefix := hub_prefix a;
     cookie_secret := cookie_secret a;
     db_url := db_url a;
     debug_db := debug_db a;
     admin_users := admin_users a;
     log_level := log_level a;
     db := db a;
     hub := hub a;
     proxy := proxy a;
     proxy_process := v |}.

Definition set_hub_prefix (v : option string) (a : JupyterHubApp) : JupyterHubApp :=
  {| config_file := config_file a;
     generate_config := generate_config a;
     pid_file := pid_file a;
     proxy_check_interval := proxy_check_interval a;
     ssl_key := ssl_key a;
     ssl_cert := ssl_cert a;
     ip := ip a;
     port := port a;
     base_url := base_url a;
     proxy_cmd := proxy_cmd a;
     proxy_auth_token := proxy_auth_token a;
     proxy_api_ip := proxy_api_ip a;
     proxy_api_port := proxy_api_port a;
     hub_port := hub_port a;
     hub_ip := hub_ip a;
     hub_prefix := v;
     cookie_secret := cookie_secret a;
     db_url := db_url a;
     debug_db := debug_db a;
     admin_users := admin_users a;
     log_level := log_level a;
     db := db a;
     hub := hub a;
     proxy := proxy a;
     proxy_process := proxy_process a |}.

Definition set_cookie_secret (v : option string) (a : JupyterHubApp) : JupyterHubApp :=
  {| config_file := config_file a;
     generate_config := generate_config a;
     pid_file := pid_file a;
     proxy_check_interval := proxy_check_interval a;
     ssl_key := ssl_key a;
     ssl_cert := ssl_cert a;
     ip := ip a;
     port := port a;
     base_url := base_url a;
     proxy_cmd := proxy_cmd a;
     proxy_auth_token := proxy_auth_token a;
     proxy_api_ip := proxy_api_ip a;
     proxy_api_port := proxy_api_port a;
     hub_port := hub_port a;
     hub_ip := hub_ip a;
     hub_prefix := hub_prefix a;
     cookie_secret := v;
     db_url := db_url a;
     debug_db := debug_db a;
     admin_users := admin_users a;
     log_level := log_level a;
     db := db a;
     hub := hub a;
     proxy := proxy a;
     proxy_process := proxy_process a |}.

Definition set_proxy_auth_token (v : option string) (a : JupyterHubApp) : JupyterHubApp :=
  {| config_file := config_file a;
     generate_config := generate_config a;
     pid_file := pid_file a;
     proxy_check_interval := proxy_check_interval a;
     ssl_key := ssl_key a;
     ssl_cert := ssl_cert a;
     ip := ip a;
     port := port a;
     base_url := base_url a;
     proxy_cmd := proxy_cmd a;
     proxy_auth_token := v;
     proxy_api_ip := proxy_api_ip a;
     proxy_api_port := proxy_api_port a;
     hub_port := hub_port a;
     hub_ip := hub_ip a;
     hub_prefix := hub_prefix a;
     cookie_secret := cookie_secret a;
     db_url := db_url a;
     debug_db := debug_db a;
     admin_users := admin_users a;
     log_level := log_level a;
     db := db a;
     hub := hub a;
     proxy := proxy a;
     proxy_process := proxy_process a |}.

Definition set_base_url (v : string) (a : JupyterHubApp) : JupyterHubApp :=
  {| config_file := config_file a;
     generate_config := generate_config a;
     pid_file := pid_file a;
     proxy_check_interval := proxy_check_interval a;
     ssl_key := ssl_key a;
     ssl_cert := ssl_cert a;
     ip := ip a;
     port := port a;
     base_url := v;
     proxy_cmd := proxy_cmd a;
     proxy_auth_token := proxy_auth_token a;
     proxy_api_ip := proxy_api_ip a;
     proxy_api_port := proxy_api_port a;
     hub_port := hub_port a;
     hub_ip := hub_ip a;
     hub_prefix := hub_prefix a;
     cookie_secret := cookie_secret a;
     db_url := db_url a;
     debug_db := debug_db a;
     admin_users := admin_users a;
     log_level := log_level a;
     db := db a;
     hub := hub a;
     proxy := proxy a;
     proxy_process := proxy_process a |}.

Definition set_hub_port (v : Z) (a : JupyterHubApp) : JupyterHubApp :=
  {| config_file := config_file a;
     generate_config := generate_config a;
     pid_file := pid_file a;
     proxy_check_interval := proxy_check_interval a;
     ssl_key := ssl_key a;
     ssl_cert := ssl_cert a;
     ip := ip a;
     port := port a;
     base_url := base_url a;
     proxy_cmd := proxy_cmd a;
     proxy_auth_token := proxy_auth_token a;
     proxy_api_ip := proxy_api_ip a;
     proxy_api_port := proxy_api_port a;
     hub_port := v;
     hub_ip := hub_ip a;
     hub_prefix := hub_prefix a;
     cookie_secret := cookie_secret a;
     db_url := db_url a;
     debug_db := debug_db a;
     admin_users := admin_users a;
     log_level := log_level a;
     db := db a;
     hub := hub a;
     proxy := proxy a;
     proxy_process := proxy_process a |}.

Definition set_pid_file (v : string) (a : JupyterHubApp) : JupyterHubApp :=
  {| config_file := config_file a;
     generate_config := generate_config a;
     pid_file := v;
     proxy_check_interval := proxy_check_interval a;
     ssl_key := ssl_key a;
     ssl_cert := ssl_cert a;
     ip := ip a;
     port := port a;
     base_url := base_url a;
     proxy_cmd := proxy_cmd a;
     proxy_auth_token := proxy_auth_token a;
     proxy_api_ip := proxy_api_ip a;
     proxy_api_port := proxy_api_port a;
     hub_port := hub_port a;
     hub_ip := hub_ip a;
     hub_prefix := hub_prefix a;
     cookie_secret := cookie_secret a;
     db_url := db_url a;
     debug_db := debug_db a;
     admin_users := admin_users a;
     log_level := log_level a;
     db := db a;
     hub := hub a;
     proxy := proxy a;
     proxy_process := proxy_process a |}.

Inductive Arg :=
| AStr (s : string)
| AInt (n : Z)
| AList (l : list string).

Inductive Event :=
| EvLog (level : logging.Level) (fmt : string) (args : list Arg)
| EvPrint (s : string)
| EvParseCommandLine
| EvLoadConfigFile (path : string)
| EvWriteConfigFile (path : string)
| EvWriteFile (path : string) (content : string)
| EvRemoveFile (path : string)
| EvInitLogging
| EvNewSession (url : string) (echo : bool)
| EvDbAdd (e : orm.Entity)
| EvDbCommit (flushed : list orm.Entity)
| EvPopen (cmd : list string) (env : gmap string string) (pid : Z)
| EvPoll (status : option Z)
| EvWaitUp (s : orm.Server) (timeout : Z) (r : Probe)
| EvAddRoute (u : orm.User)
| EvSpawnerStop (u : orm.User)
| EvAwaitStop (u : orm.User) (r : StopResult)
| EvTerminate (pid : Z)
| EvAssemble (what : string)
| EvPeriodicCallback (interval : Z)
| EvListen (port : Z)
| EvLoopStart.

Record State := {
  self : JupyterHubApp;
  world : World;
  events : list Event;
}.

(** ** The monad *)

Definition M (A : Type) : Type := State -> outcome A * State.

Definition ret {A} (a : A) : M A := fun st => (Ret a, st).

Definition bind {A B} (m : M A) (k : A -> M B) : M B :=
  fun st =>
    match m st with
    | (Ret a, st') => k a st'
    | (Raise e, st') => (Raise e, st')
    | (Hang, st') => (Hang, st')
    end.

Definition raise {A} (e : exn) : M A := fun st => (Raise e, st).

(** A coroutine that is never resumed. *)
Definition hang {A} : M A := fun st => (Hang, st).

(** [try: m except Exception as e: h e]; [SystemExit] is no [Exception]. *)
Definition try_except {A} (m : M A) (h : exn -> M A) : M A :=
  fun st =>
    match m st with
    | (Raise (SystemExit c), st') => (Raise (SystemExit c), st')
    | (Raise e, st') => h e st'
    | r => r
    end.

#[global] Instance M_ret : MRet M := @ret.
#[global] Instance M_bind : MBind M := fun A B k m => bind m k.

Definition emit (e : Event) : M unit :=
  fun st => (Ret tt, {| self := self st; world := world st; events := events st ++ [e] |}).

Definition get_self : M JupyterHubApp := fun st => (Ret (self st), st).
Definition get_world : M World := fun st => (Ret (world st), st).
Definition now : M nat := fun st => (Ret (length (events st)), st).

Definition put_self (a : JupyterHubApp) : M unit :=
  fun st => (Ret tt, {| self := a; world := world st; events := events st |}).

(** Reading an attribute that was never set. *)
Definition attr {A} (name : string) (o : option A) : M A :=
  match o with
  | Some a => ret a
  | None => raise (AttributeError name)
  end.

Definition log (level : logging.Level) (fmt : string) (args : list Arg) : M unit :=
  emit (EvLog level fmt args).

(** ** Ports *)

(** [self.proxy_api_port], with [_proxy_api_port_default]. *)
Definition proxy_api_port_of (a : JupyterHubApp) : Z :=
  match proxy_api_port a with
  | Some p => p
  | None => port a + 1
  end.

Definition init_ports : M unit :=
  a ← get_self;
  if hub_port a =? port a then
    raise (TraitError ("The hub and proxy cannot both listen on port " +:+ str (port a)))
  else if hub_port a =? proxy_api_port_of a then
    raise (TraitError ("The hub and proxy API cannot both listen on port " +:+ str (hub_port a)))
  else if proxy_api_port_of a =? port a then
    raise (TraitError ("The proxy's public and API ports cannot both be " +:+ str (port a)))
  else ret tt.

(** ** The entity store *)

Definition db_add (e : orm.Entity) : M unit :=
  a ← get_self;
  s ← attr "db" (db a);
  put_self (set_db (Some (orm.add e s)) a);;
  emit (EvDbAdd e).

Definition db_commit : M unit :=
  a ← get_self;
  s ← attr "db" (db a);
  put_self (set_db (Some (orm.commit s)) a);;
  emit (EvDbCommit (orm.pending s)).

(** [for x in l: body x] *)
Fixpoint for_each {A} (l : list A) (body : A -> M unit) : M unit :=
  match l with
  | [] => ret tt
  | x :: l' => body x;; for_each l' body
  end.

(** ** Initialisation *)

Definition write_pid_file : M unit :=
  w ← get_world;
  a ← get_self;
  let pid := getpid w in
  if truthy (pid_file a) then
    log logging.debug "Writing PID %i to %s" [AInt pid; AStr (pid_file a)];;
    emit (EvWriteFile (pid_file a) (str pid))
  else ret tt.

Definition init_logging : M unit := emit EvInitLogging.

Definition init_db : M unit :=
  w ← get_world;
  a ← get_self;
  emit (EvNewSession (db_url a) (debug_db a));;
  match database w (db_url a) with
  | orm.Refused msg => raise (OtherError msg)
  | orm.Rows rows =>
      put_self (set_db (Some (orm.new_session rows)) a);;
      for_each (admin_users a) (fun name =>
        let user := {| orm.name := name; orm.admin := true; orm.spawner := None |} in
        db_add (orm.EUser user));;
      db_commit
  end.

(** [self.hub_prefix], with [_hub_prefix_default]. *)
Definition hub_prefix_of (w : World) (a : JupyterHubApp) : string :=
  match hub_prefix a with
  | Some p => p
  | None => url_path_join w (base_url a) "/hub/"
  end.

(** [self.cookie_secret], with [_cookie_secret_default]; the default is kept
    once it has been read. *)
Definition read_cookie_secret : M string :=
  a ← get_self;
  match cookie_secret a with
  | Some c => ret c
  | None =>
      w ← get_world;
      t ← now;
      let fresh := random_hex w t 64 in
      let c := default fresh (environ w !! "JPY_COOKIE_SECRET") in
      put_self (set_cookie_secret (Some c) a);;
      ret c
  end.

Definition init_hub : M unit :=
  secret ← read_cookie_secret;
  w ← get_world;
  a ← get_self;
  let h := {| orm.server :=
                {| orm.ip := hub_ip a;
                   orm.port := hub_port a;
                   orm.base_url := Some (hub_prefix_of w a);
                   orm.cookie_secret := Some secret;
                   orm.cookie_name := Some "jupyter-hub-token" |} |} in
  put_self (set_hub (Some h) a);;
  db_add (orm.EHub h);;
  db_commit.

Definition init_proxy : M unit :=
  w ← get_world;
  a ← get_self;
  t ← now;
  let p := {| orm.public_server :=
                {| orm.ip := ip a;
                   orm.port := port a;
                   orm.base_url := None;
                   orm.cookie_secret := None;
                   orm.cookie_name := None |};
              orm.api_server :=
                {| orm.ip := proxy_api_ip a;
                   orm.port := proxy_api_port_of a;
                   orm.base_url := Some "/api/routes/";
                   orm.cookie_secret := None;
                   orm.cookie_name := None |};
              orm.auth_token := new_token w t |} in
  put_self (set_proxy (Some p) a);;
  db_add (orm.EProxy p);;
  db_commit.

(** The request-handling surface is put together from modules outside
    [app.py]; only the fact that it is assembled is recorded. *)
Definition init_handlers : M unit := emit (EvAssemble "handlers").
Definition init_tornado_settings : M unit := emit (EvAssemble "tornado_settings").
Definition init_tornado_application : M unit := emit (EvAssemble "tornado_application").

(** The body of [initialize].  The traits of [self] are the values in force
    once the command line and the config file have been read. *)
Definition initialize_body : M unit :=
  emit EvParseCommandLine;;
  a ← get_self;
  if generate_config a then ret tt
  else
    emit (EvLoadConfigFile (config_file a));;
    write_pid_file;;
    init_logging;;
    init_ports;;
    init_db;;
    init_hub;;
    init_proxy;;
    init_handlers;;
    init_tornado_settings;;
    init_tornado_application.

(** IPython's [catch_config_error]: a [TraitError] raised while initialising
    is printed as a fatal message and the application exits with status 1. *)
Definition catch_config_error (method : M unit) : M unit :=
  fun st =>
    match method st with
    | (Raise (TraitError msg), st') =>
        (log logging.fatal "Bad config encountered during initialization:" [];;
         log logging.fatal "%s" [AStr msg];;
         raise (SystemExit 1)) st'
    | r => r
    end.

Definition initialize : M unit := catch_config_error initialize_body.

(** ** The proxy process *)

(** [Popen(cmd, env=env)] *)
Definition popen (cmd : list string) (env : gmap string string) : M Popen :=
  w ← get_world;
  t ← now;
  let p := {| pid := spawn_pid w t; returncode := None |} in
  emit (EvPopen cmd env (pid p));;
  ret p.

(** [self.proxy_process.poll()]: the exit status once the process is gone,
    kept in [returncode] from then on. *)
Definition poll : M (option Z) :=
  a ← get_self;
  p ← attr "proxy_process" (proxy_process a);
  match returncode p with
  | Some c => emit (EvPoll (Some c));; ret (Some c)
  | None =>
      w ← get_world;
      t ← now;
      let status := exit_status w t in
      put_self (set_proxy_process (Some {| pid := pid p; returncode := status |}) a);;
      emit (EvPoll status);;
      ret status
  end.

(** [yield server.wait_up(timeout)] *)
Definition wait_up (server : orm.Server) (timeout : Z) : M unit :=
  w ← get_world;
  t ← now;
  let r := wait_up_result w t server timeout in
  emit (EvWaitUp server timeout r);;
  match r with
  | Up => ret tt
  | TimedOut => raise TimeoutError
  | Failed msg => raise (OtherError msg)
  end.

(** The inner function [_check] of [start_proxy]. *)
Definition _check : M unit :=
  status ← poll;
  match status with
  | Some c => raise (RuntimeError ("Proxy failed to start with exit code " +:+ str c))
  | None => ret tt
  end.

(** [try: m  except TimeoutError: h] *)
Definition except_timeout {A} (m : M A) (h : M A) : M A :=
  fun st =>
    match m st with
    | (Raise TimeoutError, st') => h st'
    | r => r
    end.

(** [for i in range(n): _check(); try: yield server.wait_up(1)
     except TimeoutError: continue  else: break] *)
Fixpoint probe_loop (n : nat) (server : orm.Server) : M unit :=
  match n with
  | O => ret tt
  | S n' =>
      _check;;
      except_timeout (wait_up server 1) (probe_loop n' server)
  end.

(** The body of [for server in (public_server, api_server)]: the bounded
    loop, then the wait that follows it. *)
Definition probe_server (server : orm.Server) : M unit :=
  probe_loop 10 server;;
  wait_up server 1.

(** The command line of the proxy. *)
Definition proxy_command (w : World) (a : JupyterHubApp) (p : orm.Proxy) (h : orm.Hub)
  : list string :=
  [proxy_cmd a;
   "--ip"; orm.ip (orm.public_server p);
   "--port"; str (orm.port (orm.public_server p));
   "--api-ip"; orm.ip (orm.api_server p);
   "--api-port"; str (orm.port (orm.api_server p));
   "--default-target"; host w (orm.server h)]
  ++ (if log_level a =? logging.DEBUG then ["--log-level"; "debug"] else [])
  ++ (if truthy (ssl_key a) then ["--ssl-key"; ssl_key a] else [])
  ++ (if truthy (ssl_cert a) then ["--ssl-cert"; ssl_cert a] else []).

Definition start_proxy : M unit :=
  w ← get_world;
  a ← get_self;
  p ← attr "proxy" (proxy a);
  let env := <["CONFIGPROXY_AUTH_TOKEN" := orm.auth_token p]> (environ w) in
  h ← attr "hub" (hub a);
  let cmd := proxy_command w a p h in
  log logging.info "Starting proxy: %s" [AList cmd];;
  proc ← popen cmd env;
  a ← get_self;
  put_self (set_proxy_process (Some proc) a);;
  for_each [orm.public_server p; orm.api_server p] probe_server;;
  log logging.debug "Proxy started and appears to be up" [].

(** Modelled from the spec: [orm.Proxy.add_all_users] is not part of
    [app.py]; the replay of the routing state issues one route-add per
    currently-known user with a backend. *)
Definition add_all_users : M unit :=
  a ← get_self;
  s ← attr "db" (db a);
  for_each (orm.query_users s) (fun user =>
    match orm.spawner user with
    | Some _ => emit (EvAddRoute user)
    | None => ret tt
    end).

Definition check_proxy : M unit :=
  status ← poll;
  match status with
  | None => ret tt
  | Some _ =>
      status ← poll;
      log logging.error "Proxy stopped with exit code %i"
        [match status with Some c => AInt c | None => AStr "None" end];;
      start_proxy;;
      log logging.info "Setting up routes on new proxy" [];;
      add_all_users;;
      log logging.info "New proxy back up, and good to go" []
  end.

(** ** Shutdown *)

(** [yield f] on the future of [user.spawner.stop()]. *)
Definition await_stop (user : orm.User) : M unit :=
  w ← get_world;
  t ← now;
  match stop_result w t user with
  | Stopped => emit (EvAwaitStop user Stopped)
  | StopFailed msg => emit (EvAwaitStop user (StopFailed msg));; raise (OtherError msg)
  | NeverResolves => hang
  end.

(** The users whose stop was requested: the [futures] list of [cleanup]. *)
Definition with_spawner (users : list orm.User) : list orm.User :=
  filter (fun u => is_Some (orm.spawner u)) users.

Definition cleanup : M unit :=
  log logging.info "Cleaning up single-user servers..." [];;
  a ← get_self;
  s ← attr "db" (db a);
  let futures := with_spawner (orm.query_users s) in
  for_each futures (fun user => emit (EvSpawnerStop user));;
  proc ← attr "proxy_process" (proxy_process a);
  log logging.info ("Cleaning up proxy[" +:+ str (pid proc) +:+ "]...") [];;
  emit (EvTerminate (pid proc));;
  for_each futures await_stop;;
  w ← get_world;
  t ← now;
  (if truthy (pid_file a) && path_exists w t (pid_file a) then
     log logging.info "Cleaning up PID file %s" [AStr (pid_file a)];;
     emit (EvRemoveFile (pid_file a))
   else ret tt);;
  log logging.info "...done" [].

(** ** Serving *)

(** Request handling changes which users the store knows: the user rows
    are replaced, everything else is kept. *)
Definition replace_users (users : list orm.User) (s : orm.Session) : orm.Session :=
  {| orm.pending := orm.pending s;
     orm.committed :=
       filter (fun e => orm.user_of e = None) (orm.committed s)
       ++ map orm.EUser users |}.

(** One firing of the periodic callback: what [check_proxy] raises stays
    in its future and the loop carries on. *)
Definition fire (callback : M unit) : M unit :=
  fun st =>
    match callback st with
    | (Raise _, st') => (Ret tt, st')
    | r => r
    end.

Definition loop_item (i : LoopItem) : M unit :=
  match i with
  | Tick => fire check_proxy
  | Request users =>
      a ← get_self;
      s ← attr "db" (db a);
      put_self (set_db (Some (replace_users users s)) a)
  end.

(** [loop.start()], until the loop is stopped or interrupted. *)
Definition loop_start : M unit :=
  emit EvLoopStart;;
  w ← get_world;
  for_each (schedule w) loop_item.

Definition write_config_file : M unit :=
  a ← get_self;
  emit (EvWriteConfigFile (config_file a)).

Definition newline : string := String (Ascii.ascii_of_nat 10) EmptyString.

Definition start : M unit :=
  a ← get_self;
  if generate_config a then write_config_file
  else
    started ← try_except (start_proxy;; ret true)
                (fun e => log logging.critical "Failed to start proxy" [];; ret false);
    if started : bool then
      emit (EvPeriodicCallback (proxy_check_interval a));;
      emit (EvListen (hub_port a));;
      loop_start;;
      w ← get_world;
      (if interrupted w then emit (EvPrint (newline +:+ "Interrupted")) else ret tt);;
      cleanup
    else ret tt.

(** [launch_instance]: initialise, then start. *)
Definition main : M unit := initialize;; start.

(** The exit status of the interpreter after [main]: 0 when it returns,
    the code of a [SystemExit], 1 for a traceback; none while it hangs. *)
Definition exit_code {A} (r : outcome A) : option Z :=
  match r with
  | Ret _ => Some 0
  | Raise (SystemExit c) => Some c
  | Raise _ => Some 1
  | Hang => None
  end.

(** ** The hub prefix *)

(** The library that assigns to a trait; the code is written for both.
    For the old value of a trait that holds no value yet, IPython 2 reads
    the trait, which computes its default, and IPython 3 takes [None]. *)
Inductive Traitlets := IPython2 | IPython3.

Definition old_hub_prefix (v : Traitlets) (w : World) (a : JupyterHubApp)
    : option string :=
  match hub_prefix a, v with
  | Some s, _ => Some s
  | None, IPython2 => Some (hub_prefix_of w a)
  | None, IPython3 => None
  end.

(** [old_value == new_value] *)
Definition same_value (old : option string) (value : string) : bool :=
  match old with
  | Some s => String.eqb s value
  | None => false
  end.

(** Assignment to a trait: the value is stored, and the change handler runs
    when the value differs from the old one. *)
Definition set_trait_hub_prefix (v : Traitlets)
    (notify : string -> option string -> string -> M unit) (value : string) : M unit :=
  w ← get_world;
  a ← get_self;
  let old := old_hub_prefix v w a in
  put_self (set_hub_prefix (Some value) a);;
  if same_value old value then ret tt else notify "hub_prefix" old value.

(** [depth] bounds the nesting of handler calls, as the interpreter's
    recursion limit does. *)
Fixpoint _hub_prefix_changed (v : Traitlets) (depth : nat)
    (name : string) (old : option string) (new : string) : M unit :=
  match depth with
  | O => raise (RuntimeError "maximum recursion depth exceeded")
  | S d =>
      if String.eqb new "/" then raise (TraitError "'/' is not a valid hub prefix")
      else
        w ← get_world;
        a ← get_self;
        let newnew := new in
        let newnew := if negb (startswith new "/") then "/" +:+ new else newnew in
        let newnew := if negb (endswith newnew "/") then newnew +:+ "/" else newnew in
        let newnew :=
          if negb (startswith newnew (base_url a))
          then url_path_join w (base_url a) newnew else newnew in
        if negb (String.eqb newnew new)
        then set_trait_hub_prefix v (_hub_prefix_changed v d) newnew
        else ret tt
  end.

(** [self.hub_prefix = value] *)
Definition assign_hub_prefix (v : Traitlets) (depth : nat) (value : string) : M unit :=
  set_trait_hub_prefix v (_hub_prefix_changed v depth) value.

(** ** A reference join and a reference world

    [url_path_join] and [host] live in [utils.py] and [orm.py]; the
    development is parametric in them.  The instances below join and
    print in the usual way and serve the examples. *)

Fixpoint lstrip_slash (s : string) : string :=
  match s with
  | String c s' => if Ascii.eqb c "/"%char then lstrip_slash s' else s
  | EmptyString => EmptyString
  end.

Definition strip_slash (s : string) : string :=
  String.rev (lstrip_slash (String.rev (lstrip_slash s))).

Definition join_pieces (a b : string) : string :=
  let initial := startswith a "/" in
  let final := endswith b "/" in
  let sa := strip_slash a in
  let sb := strip_slash b in
  let result :=
    if String.eqb sa "" then sb
    else if String.eqb sb "" then sa
    else sa +:+ "/" +:+ sb in
  let result := if initial then "/" +:+ result else result in
  let result := if final then result +:+ "/" else result in
  if String.eqb result "//" then "/" else result.

Definition sample_host (s : orm.Server) : string :=
  "http://" +:+ orm.ip s +:+ ":" +:+ str (orm.port s).

(** A world in which the proxy comes up at once and nothing fails. *)
Definition calm_world : World :=
  {| environ := ∅;
     getpid := 4242;
     new_token := fun _ => "5f2c9a";
     random_hex := fun _ _ => "c0ffee";
     spawn_pid := fun _ => 4243;
     exit_status := fun _ => None;
     wait_up_result := fun _ _ _ => Up;
     stop_result := fun _ _ => Stopped;
     path_exists := fun _ _ => true;
     database := fun _ => orm.Rows [];
     schedule := [];
     interrupted := false;
     host := sample_host;
     url_path_join := join_pieces |}.

(** The application with every trait at its default. *)
Definition default_app : JupyterHubApp :=
  {| config_file := "jupyter_hub_config.py";
     generate_config := false;
     pid_file := "";
     proxy_check_interval := 10000;
     ssl_key := "";
     ssl_cert := "";
     ip := "";
     port := 8000;
     base_url := "/";
     proxy_cmd := "configurable-http-proxy";
     proxy_auth_token := None;
     proxy_api_ip := "localhost";
     proxy_api_port := None;
     hub_port := 8081;
     hub_ip := "localhost";
     hub_prefix := None;
     cookie_secret := None;
     db_url := "sqlite:///:memory:";
     debug_db := false;
     admin_users := ["root"];
     log_level := logging.INFO;
     db := None;
     hub := None;
     proxy := None;
     proxy_process := None |}.

Definition boot (w : World) (a : JupyterHubApp) : State :=
  {| self := a; world := w; events := [] |}.

(** ** The vocabulary of the properties *)

Definition logged (l : list Event) (st : State) : State :=
  {| self := self st; world := world st; events := events st ++ l |}.

(** The status that a [poll] observes in [st] for the process [p]. *)
Definition observed (st : State) (p : Popen) : option Z :=
  match returncode p with
  | Some c => Some c
  | None => exit_status (world st) (length (events st))
  end.

Definition polled (st : State) (p : Popen) : State :=
  {| self := set_proxy_process (Some {| pid := pid p; returncode := observed st p |}) (self st);
     world := world st;
     events := events st ++ [EvPoll (observed st p)] |}.

(** The world's answer to the probe that [st] is about to make. *)
Definition answer (st : State) (s : orm.Server) : Probe :=
  wait_up_result (world st) (length (events st)) s 1.

(** A round that timed out, and [k] of them in a row. *)
Definition round (s : orm.Server) : list Event :=
  [EvPoll None; EvWaitUp s 1 TimedOut].

Definition rounds (k : nat) (s : orm.Server) : list Event :=
  concat (replicate k (round s)).

(** How the bounded loop of budget [n] ends after [k] timed-out rounds, and
    the events of its last round. *)
Inductive LoopEnd (s : orm.Server) (n k : nat) : outcome unit → list Event → Prop :=
| loop_exhausted :
    k = n → LoopEnd s n k (Ret tt) []
| loop_broke :
    (k < n)%nat → LoopEnd s n k (Ret tt) [EvPoll None; EvWaitUp s 1 Up]
| loop_gone c :
    (k < n)%nat →
    LoopEnd s n k (Raise (RuntimeError ("Proxy failed to start with exit code " +:+ str c)))
      [EvPoll (Some c)]
| loop_failed msg :
    (k < n)%nat →
    LoopEnd s n k (Raise (OtherError msg)) [EvPoll None; EvWaitUp s 1 (Failed msg)].

(** The state right after [Popen]. *)
Definition launched (st : State) (p : orm.Proxy) (h : orm.Hub) : State :=
  let cmd := proxy_command (world st) (self st) p h in
  let env := <["CONFIGPROXY_AUTH_TOKEN" := orm.auth_token p]> (environ (world st)) in
  let st1 := logged [EvLog logging.info "Starting proxy: %s" [AList cmd]] st in
  let proc := {| pid := spawn_pid (world st) (length (events st1)); returncode := None |} in
  {| self := set_proxy_process (Some proc) (self st);
     world := world st;
     events := events st1 ++ [EvPopen cmd env (pid proc)] |}.

(** How the probing of one endpoint ends: the bounded loop, then (when the
    loop returned) the one wait that follows it. *)
Inductive ServerEnd (s : orm.Server) : outcome unit → list Event → Prop :=
| server_up k tail :
    LoopEnd s 10 k (Ret tt) tail →
    ServerEnd s (Ret tt) (rounds k s ++ tail ++ [EvWaitUp s 1 Up])
| server_timeout k tail :
    LoopEnd s 10 k (Ret tt) tail →
    ServerEnd s (Raise TimeoutError) (rounds k s ++ tail ++ [EvWaitUp s 1 TimedOut])
| server_error k tail msg :
    LoopEnd s 10 k (Ret tt) tail →
    ServerEnd s (Raise (OtherError msg)) (rounds k s ++ tail ++ [EvWaitUp s 1 (Failed msg)])
| server_loop_raised k tail e :
    LoopEnd s 10 k (Raise e) tail →
    ServerEnd s (Raise e) (rounds k s ++ tail).

Definition started_line : Event :=
  EvLog logging.debug "Proxy started and appears to be up" [].

(** How [start_proxy] ends, and what it logs after the launch. *)
Inductive StartEnd (p : orm.Proxy) : outcome unit → list Event → Prop :=
| start_ok l1 l2 :
    ServerEnd (orm.public_server p) (Ret tt) l1 →
    ServerEnd (orm.api_server p) (Ret tt) l2 →
    StartEnd p (Ret tt) (l1 ++ l2 ++ [started_line])
| start_public_failed e l1 :
    ServerEnd (orm.public_server p) (Raise e) l1 →
    StartEnd p (Raise e) l1
| start_api_failed e l1 l2 :
    ServerEnd (orm.public_server p) (Ret tt) l1 →
    ServerEnd (orm.api_server p) (Raise e) l2 →
    StartEnd p (Raise e) (l1 ++ l2).

(** The state in which the examples start the proxy: initialised in a calm
    world, all traits at their defaults. *)
Definition ready : State := snd (initialize (boot calm_world default_app)).

Definition ready_proxy : orm.Proxy :=
  {| orm.public_server :=
       {| orm.ip := ""; orm.port := 8000; orm.base_url := None;
          orm.cookie_secret := None; orm.cookie_name := None |};
     orm.api_server :=
       {| orm.ip := "localhost"; orm.port := 8001; orm.base_url := Some "/api/routes/";
          orm.cookie_secret := None; orm.cookie_name := None |};
     orm.auth_token := "5f2c9a" |}.

Definition ready_hub : orm.Hub :=
  {| orm.server :=
       {| orm.ip := "localhost"; orm.port := 8081; orm.base_url := Some "/hub/";
          orm.cookie_secret := Some "c0ffee";
          orm.cookie_name := Some "jupyter-hub-token" |} |}.

Definition launch_error (c : Z) : exn :=
  RuntimeError ("Proxy failed to start with exit code " +:+ str c).

(** The results of the probes that a log records. *)
Definition probe_of (e : Event) : option Probe :=
  match e with
  | EvWaitUp _ _ r => Some r
  | _ => None
  end.

Definition probes (l : list Event) : list Probe := omap probe_of l.

(** A world in which the proxy dies with status 17 as soon as it is
    launched. *)
Definition dies_with_17 : World :=
  {| environ := ∅;
     getpid := 4242;
     new_token := fun _ => "5f2c9a";
     random_hex := fun _ _ => "c0ffee";
     spawn_pid := fun _ => 4243;
     exit_status := fun _ => Some 17;
     wait_up_result := fun _ _ _ => TimedOut;
     stop_result := fun _ _ => Stopped;
     path_exists := fun _ _ => true;
     database := fun _ => orm.Rows [];
     schedule := [];
     interrupted := false;
     host := sample_host;
     url_path_join := join_pieces |}.

Definition doomed : State := snd (initialize (boot dies_with_17 default_app)).

(** The world lets the process live through the [k] rounds that start at
    time [t], and lets every probe of [s] in them time out: the only way
    in which attempt [k + 1] begins. *)
Definition stalls (w : World) (t k : nat) (s : orm.Server) : Prop :=
  (∀ i, (i < k)%nat → exit_status w (t + 2 * i) = None) ∧
  (∀ i, (i < k)%nat → wait_up_result w (t + 2 * i + 1) s 1 = TimedOut).

(** A world in which the public endpoint answers at once, the API endpoint
    never does, and the proxy dies with status 17 while the hub waits for
    it: the third attempt on the API endpoint finds it gone. *)
Definition dies_while_probed : World :=
  {| environ := ∅;
     getpid := 4242;
     new_token := fun _ => "5f2c9a";
     random_hex := fun _ _ => "c0ffee";
     spawn_pid := fun _ => 4243;
     exit_status := fun t => if (22 <=? t)%nat then Some 17 else None;
     wait_up_result := fun t _ _ => if (t <? 18)%nat then Up else TimedOut;
     stop_result := fun _ _ => Stopped;
     path_exists := fun _ _ => true;
     database := fun _ => orm.Rows [];
     schedule := [];
     interrupted := false;
     host := sample_host;
     url_path_join := join_pieces |}.

Definition fading : State := snd (initialize (boot dies_while_probed default_app)).

(** An operator who sets [proxy_auth_token] in the configuration. *)
Definition operator_app : JupyterHubApp :=
  set_proxy_auth_token (Some "operator-secret") default_app.

Definition with_token (tok : string) (p : orm.Proxy) : orm.Proxy :=
  {| orm.public_server := orm.public_server p;
     orm.api_server := orm.api_server p;
     orm.auth_token := tok |}.

Definition flag_words : list string :=
  ["--ip"; "--port"; "--api-ip"; "--api-port"; "--default-target";
   "--log-level"; "debug"; "--ssl-key"; "--ssl-cert"].

(** The configured values that may appear on the command line. *)
Definition configured_words (w : World) (a : JupyterHubApp) (p : orm.Proxy) (h : orm.Hub)
  : list string :=
  [proxy_cmd a;
   orm.ip (orm.public_server p); str (orm.port (orm.public_server p));
   orm.ip (orm.api_server p); str (orm.port (orm.api_server p));
   host w (orm.server h);
   ssl_key a; ssl_cert a].

Definition is_probing (e : Event) : bool :=
  match e with
  | EvPoll _ | EvWaitUp _ _ _ | EvLog _ _ _ => true
  | _ => false
  end.

Definition is_popen (e : Event) : bool :=
  match e with
  | EvPopen _ _ _ => true
  | _ => false
  end.

(** Hub and proxy both on port 8000. *)
Definition clashing_app : JupyterHubApp := set_hub_port 8000 default_app.

(** The value that the handler computes from [new]. *)
Definition normalised (w : World) (a : JupyterHubApp) (new : string) : string :=
  let newnew := new in
  let newnew := if negb (startswith new "/") then "/" +:+ new else newnew in
  let newnew := if negb (endswith newnew "/") then newnew +:+ "/" else newnew in
  if negb (startswith newnew (base_url a))
  then url_path_join w (base_url a) newnew else newnew.

(** A prefix in normal form under the base URL [b]. *)
Definition well_formed (b s : string) : Prop :=
  startswith s "/" = true ∧ endswith s "/" = true ∧ startswith s b = true.

(** What the handler needs of [url_path_join]: joining a path that starts
    and ends with a slash under [b] gives such a path that starts with [b]. *)
Definition joins_under (w : World) (b : string) : Prop :=
  ∀ x, startswith x "/" = true → endswith x "/" = true → startswith x b = false →
       well_formed b (url_path_join w b x).

Definition bad_prefix : exn := TraitError "'/' is not a valid hub prefix".

Definition stored (s : string) (st : State) : State :=
  {| self := set_hub_prefix (Some s) (self st); world := world st; events := events st |}.

Definition based : State := boot calm_world (set_base_url "/base/" default_app).

(** A base URL that does not start with a slash, and an empty one. *)
Definition relative : State := boot calm_world (set_base_url "base/" default_app).

Definition unbased : State := boot calm_world (set_base_url "" default_app).

(** The route-adds of a replay. *)
Definition routes (s : orm.Session) : list Event :=
  map EvAddRoute (with_spawner (orm.query_users s)).

(** A world in which the proxy comes up and then dies, with status 1, at
    the time of the first tick. *)
Definition flaky_world : World :=
  {| environ := ∅;
     getpid := 4242;
     new_token := fun _ => "5f2c9a";
     random_hex := fun _ _ => "c0ffee";
     spawn_pid := fun _ => 4243;
     exit_status := fun t => if Nat.eqb t 22 then Some 1 else None;
     wait_up_result := fun _ _ _ => Up;
     stop_result := fun _ _ => Stopped;
     path_exists := fun _ _ => true;
     database := fun _ => orm.Rows [];
     schedule := [];
     interrupted := false;
     host := sample_host;
     url_path_join := join_pieces |}.

Definition root : orm.User :=
  {| orm.name := "root"; orm.admin := true; orm.spawner := None |}.
Definition alice : orm.User :=
  {| orm.name := "alice"; orm.admin := false; orm.spawner := Some {| orm.handle := 1 |} |}.
Definition bob : orm.User :=
  {| orm.name := "bob"; orm.admin := false; orm.spawner := None |}.
Definition carol : orm.User :=
  {| orm.name := "carol"; orm.admin := false; orm.spawner := Some {| orm.handle := 2 |} |}.

(** The hub is serving [alice] and [carol]; [root] and [bob] have no
    backend. *)
Definition serving : State :=
  snd ((initialize;; start_proxy;; loop_item (Request [root; alice; bob; carol]))
         (boot flaky_world default_app)).

Definition serving_session : orm.Session :=
  default (orm.new_session []) (db (self serving)).

Definition route_of (e : Event) : option string :=
  match e with
  | EvAddRoute u => Some (orm.name u)
  | _ => None
  end.

(** Waiting on the stop futures in turn from time [t] on: how the wait ends
    and what it logs. *)
Fixpoint awaits (w : World) (t : nat) (users : list orm.User) : outcome unit * list Event :=
  match users with
  | [] => (Ret tt, [])
  | u :: us =>
      match stop_result w t u with
      | Stopped =>
          let (r, l) := awaits w (S t) us in
          (r, EvAwaitStop u Stopped :: l)
      | StopFailed msg => (Raise (OtherError msg), [EvAwaitStop u (StopFailed msg)])
      | NeverResolves => (Hang, [])
      end
  end.

(** The stop requests and the end of the proxy: what [cleanup] does before
    it waits for anything. *)
Definition winding_down (a : JupyterHubApp) (s : orm.Session) (proc : Popen) : list Event :=
  [EvLog logging.info "Cleaning up single-user servers..." []] ++
  map EvSpawnerStop (with_spawner (orm.query_users s)) ++
  [EvLog logging.info ("Cleaning up proxy[" +:+ str (pid proc) +:+ "]...") [];
   EvTerminate (pid proc)].

(** The removal of the pid file and the last line. *)
Definition wrapping_up (a : JupyterHubApp) (exists_ : bool) : list Event :=
  (if truthy (pid_file a) && exists_
   then [EvLog logging.info "Cleaning up PID file %s" [AStr (pid_file a)];
         EvRemoveFile (pid_file a)]
   else []) ++
  [EvLog logging.info "...done" []].

Definition stopped_all (users : list orm.User) : list Event :=
  map (fun v => EvAwaitStop v Stopped) users.

(** The files that a log removes. *)
Definition removed (l : list Event) : list string :=
  omap (fun e => match e with EvRemoveFile path => Some path | _ => None end) l.

(** The processes that a log terminates. *)
Definition terminated (l : list Event) : list Z :=
  omap (fun e => match e with EvTerminate pid => Some pid | _ => None end) l.

(** Three users with backends; the pid file is configured. *)
Definition dave : orm.User :=
  {| orm.name := "dave"; orm.admin := false; orm.spawner := Some {| orm.handle := 3 |} |}.

Definition pid_app : JupyterHubApp := set_pid_file "/run/jupyterhub.pid" default_app.

(** The world in which the stop of one user ends as [carol_stop]. *)
Definition stop_world (carol_stop : StopResult) : World :=
  {| environ := ∅;
     getpid := 4242;
     new_token := fun _ => "5f2c9a";
     random_hex := fun _ _ => "c0ffee";
     spawn_pid := fun _ => 4243;
     exit_status := fun _ => None;
     wait_up_result := fun _ _ _ => Up;
     stop_result := fun _ u => if String.eqb (orm.name u) "carol" then carol_stop else Stopped;
     path_exists := fun _ _ => true;
     database := fun _ => orm.Rows [];
     schedule := [];
     interrupted := false;
     host := sample_host;
     url_path_join := join_pieces |}.

Definition shutting_down (carol_stop : StopResult) : State :=
  snd ((initialize;; start_proxy;; loop_item (Request [alice; carol; dave]))
         (boot (stop_world carol_stop) pid_app)).

Definition is_listen (e : Event) : bool :=
  match e with
  | EvListen _ => true
  | _ => false
  end.

Definition failed_line : Event :=
  EvLog logging.critical "Failed to start proxy" [].

(** A world in which the proxy stays alive and never answers. *)
Definition silent_world : World :=
  {| environ := ∅;
     getpid := 4242;
     new_token := fun _ => "5f2c9a";
     random_hex := fun _ _ => "c0ffee";
     spawn_pid := fun _ => 4243;
     exit_status := fun _ => None;
     wait_up_result := fun _ _ _ => TimedOut;
     stop_result := fun _ _ => Stopped;
     path_exists := fun _ _ => true;
     database := fun _ => orm.Rows [];
     schedule := [];
     interrupted := false;
     host := sample_host;
     url_path_join := join_pieces |}.

(** A commit that made the Proxy [p] durable is on the log. *)
Definition committed_before (p : orm.Proxy) (before : list Event) : Prop :=
  ∃ flushed, EvDbCommit flushed ∈ before ∧ orm.EProxy p ∈ flushed.

(** A launch is in order after [before]: the store holds a committed Proxy
    whose token is the one in the environment and whose endpoints are the
    ones on the command line. *)
Definition launch_in_order (before : list Event) (cmd : list string)
    (env : gmap string string) : Prop :=
  ∃ p, committed_before p before ∧
       env !! "CONFIGPROXY_AUTH_TOKEN" = Some (orm.auth_token p) ∧
       ∃ w a h, cmd = proxy_command w a p h.

(** Listening is in order after [before]: both endpoints of the committed
    Proxy have answered a probe. *)
Definition listen_in_order (before : list Event) : Prop :=
  ∃ p, committed_before p before ∧
       EvWaitUp (orm.public_server p) 1 Up ∈ before ∧
       EvWaitUp (orm.api_server p) 1 Up ∈ before.

Definition in_order (before : list Event) (e : Event) : Prop :=
  match e with
  | EvPopen cmd env _ => launch_in_order before cmd env
  | EvListen _ => listen_in_order before
  | _ => True
  end.

(** Every launch and every listen of the log is in order after what
    precedes it. *)
Definition ordered (l : list Event) : Prop :=
  ∀ before e after, l = before ++ e :: after → in_order before e.

(** Neither a launch nor a listen. *)
Definition quiet (e : Event) : Prop := is_popen e = false ∧ is_listen e = false.

(** The invariant of a run once the Proxy [p] is in the store: [self.proxy]
    is that Proxy, its commit is on the log, and the log is ordered. *)
Definition settled (p : orm.Proxy) (st : State) : Prop :=
  proxy (self st) = Some p ∧
  committed_before p (events st) ∧
  ordered (events st).

(** [m] keeps the invariant. *)
Definition keeps {A} (p : orm.Proxy) (m : M A) : Prop :=
  ∀ st, settled p st → settled p (snd (m st)).

(** A step that neither launches nor listens, and leaves the world and the
    [generate_config] flag alone. *)
Definition calm_step (st st' : State) : Prop :=
  world st' = world st ∧
  generate_config (self st') = generate_config (self st) ∧
  ∃ new, events st' = events st ++ new ∧ Forall quiet new.

Definition calm {A} (m : M A) : Prop := ∀ st, calm_step st (snd (m st)).

(** Where an initialisation that started in [st0] stands: so far calm, and
    with a committed Proxy once it has returned. *)
Definition initialised (st0 : State) (res : outcome unit * State) : Prop :=
  calm_step st0 (snd res) ∧
  (fst res = Ret tt →
   ∃ p, proxy (self (snd res)) = Some p ∧ committed_before p (events (snd res))).

(** ** Handlers *)

(** A value of the [kwargs] of a handler. *)
Inductive KwValue :=
| KStr (s : string)
| KBool (b : bool).

(** A handler tuple, [(pattern, class)] or [(pattern, class, kwargs)]. *)
Record Handler := {
  pattern : string;
  handler_class : string;
  kwargs : option (list (string * KwValue));
}.

(** [lis = list(tup); lis[0] = v; tuple(lis)] *)
Definition with_pattern (v : string) (tup : Handler) : Handler :=
  {| pattern := v; handler_class := handler_class tup; kwargs := kwargs tup |}.

(** [for i, tup in enumerate(handlers): ...; handlers[i] = tuple(lis)]:
    the list is updated in place while it is walked; [n] is what is left
    of it. *)
Fixpoint add_url_prefix_loop (join : string -> string -> string) (prefix : string)
    (n i : nat) (handlers : list Handler) : list Handler :=
  match n with
  | O => handlers
  | S n' =>
      match handlers !! i with
      | Some tup =>
          add_url_prefix_loop join prefix n' (S i)
            (<[i := with_pattern (join prefix (pattern tup)) tup]> handlers)
      | None => handlers
      end
  end.

Definition add_url_prefix (w : World) (prefix : string) (handlers : list Handler)
  : list Handler :=
  add_url_prefix_loop (url_path_join w) prefix (length handlers) 0 handlers.

(** [s.rstrip('/')] *)
Fixpoint rstrip_slash (s : string) : string :=
  match s with
  | EmptyString => EmptyString
  | String c s' =>
      let r := rstrip_slash s' in
      if String.eqb r "" && Ascii.eqb c "/"%char then EmptyString else String c r
  end.

(** The value that [init_handlers] leaves in [self.handlers], given the
    [default_handlers] of the modules [handlers] and [apihandlers]. *)
Definition handler_table (w : World) (a : JupyterHubApp)
    (default_handlers api_handlers : list Handler) : list Handler :=
  let h := [] ++ default_handlers ++ api_handlers in
  add_url_prefix w (hub_prefix_of w a) h ++
  [ {| pattern := rstrip_slash (hub_prefix_of w a);
       handler_class := "web.RedirectHandler";
       kwargs := Some [("url", KStr (hub_prefix_of w a)); ("permanent", KBool false)] |};
    {| pattern := "(?!" +:+ hub_prefix_of w a +:+ ").*";
       handler_class := "handlers.PrefixRedirectHandler";
       kwargs := None |};
    {| pattern := "(.*)";
       handler_class := "handlers.Template404";
       kwargs := None |} ].

(** The same string with [k] slashes after it. *)
Fixpoint slashes (k : nat) : string :=
  match k with
  | O => EmptyString
  | S k' => String "/"%char (slashes k')
  end.

(** ** Entities of the store *)

(** The user that [init_db] adds for an admin name. *)
Definition admin_user (name : string) : orm.User :=
  {| orm.name := name; orm.admin := true; orm.spawner := None |}.

(** The Hub of [init_hub], for the cookie secret [secret]. *)
Definition hub_entity (w : World) (a : JupyterHubApp) (secret : string) : orm.Hub :=
  {| orm.server :=
       {| orm.ip := hub_ip a;
          orm.port := hub_port a;
          orm.base_url := Some (hub_prefix_of w a);
          orm.cookie_secret := Some secret;
          orm.cookie_name := Some "jupyter-hub-token" |} |}.

(** The Proxy of [init_proxy], for the token [token]. *)
Definition proxy_entity (a : JupyterHubApp) (token : string) : orm.Proxy :=
  {| orm.public_server :=
       {| orm.ip := ip a;
          orm.port := port a;
          orm.base_url := None;
          orm.cookie_secret := None;
          orm.cookie_name := None |};
     orm.api_server :=
       {| orm.ip := proxy_api_ip a;
          orm.port := proxy_api_port_of a;
          orm.base_url := Some "/api/routes/";
          orm.cookie_secret := None;
          orm.cookie_name := None |};
     orm.auth_token := token |}.

(** The secret that a first read of [self.cookie_secret] gives at time [t]. *)
Definition cookie_secret_at (w : World) (a : JupyterHubApp) (t : nat) : string :=
  match cookie_secret a with
  | Some c => c
  | None => default (random_hex w t 64) (environ w !! "JPY_COOKIE_SECRET")
  end.

(** The files that a log writes, with their contents. *)
Definition written (l : list Event) : list (string * string) :=
  omap (fun e => match e with EvWriteFile path content => Some (path, content) | _ => None end) l.

(** How a [wait_up] that ended as [r] comes out. *)
Definition probe_outcome (r : Probe) : outcome unit :=
  match r with
  | Up => Ret tt
  | TimedOut => Raise TimeoutError
  | Failed msg => Raise (OtherError msg)
  end.

(** A world in which the endpoints start to answer at time 22. *)
Definition slow_world : World :=
  {| environ := ∅;
     getpid := 4242;
     new_token := fun _ => "5f2c9a";
     random_hex := fun _ _ => "c0ffee";
     spawn_pid := fun _ => 4243;
     exit_status := fun _ => None;
     wait_up_result := fun t _ _ => if (t <? 22)%nat then TimedOut else Up;
     stop_result := fun _ _ => Stopped;
     path_exists := fun _ _ => true;
     database := fun _ => orm.Rows [];
     schedule := [];
     interrupted := false;
     host := sample_host;
     url_path_join := join_pieces |}.

(** Right after the launch in that world. *)
Definition just_launched : State :=
  launched (snd (initialize (boot slow_world default_app))) ready_proxy ready_hub.

(** ** The terminal of [write_config_file] *)

Module dialogue.

(** What [raw_input] meets on the terminal: a line (without its newline) or
    Ctrl-C.  A terminal that has run out of keys is at end of file. *)
Inductive Key :=
| Line (s : string)
| Interrupt.

Inductive Action :=
| Input (prompt : string)
| Print (s : string)
| WriteText (path : string) (text : string).

(** [s.lower()] on ASCII text. *)
Definition lower_ascii (c : ascii) : ascii :=
  let n := Ascii.nat_of_ascii c in
  if (65 <=? n)%nat && (n <=? 90)%nat then Ascii.ascii_of_nat (n + 32) else c.

Fixpoint lower (s : string) : string :=
  match s with
  | EmptyString => EmptyString
  | String c s' => String (lower_ascii c) (lower s')
  end.

(** The value of [ask()] on a key, and what it prints on the way. *)
Definition answer_of (k : Key) : string :=
  match k with
  | Line s => if truthy (lower s) then lower s else "n"
  | Interrupt => "n"
  end.

Definition echo_of (k : Key) : list Action :=
  match k with
  | Line _ => []
  | Interrupt => [Print ""]
  end.

(** [answer.startswith(('y', 'n'))] *)
Definition decided (answer : string) : bool :=
  startswith answer "y" || startswith answer "n".

Definition please : Action := Print "Please answer 'yes' or 'no'".

(** [while not answer.startswith(('y', 'n')): print(...); answer = ask()] *)
Fixpoint ask_again (prompt answer : string) (stdin : list Key) {struct stdin}
    : outcome string * list Action :=
  if decided answer then (Ret answer, [])
  else
    match stdin with
    | [] => (Raise (OtherError "EOFError"), [please; Input prompt])
    | k :: rest =>
        let (r, l) := ask_again prompt (answer_of k) rest in
        (r, please :: Input prompt :: echo_of k ++ l)
    end.

(** [answer = ask()] and the loop after it. *)
Definition ask_until_decided (prompt : string) (stdin : list Key)
    : outcome string * list Action :=
  match stdin with
  | [] => (Raise (OtherError "EOFError"), [Input prompt])
  | k :: rest =>
      let (r, l) := ask_again prompt (answer_of k) rest in
      (r, Input prompt :: echo_of k ++ l)
  end.

Definition writing (config_file config_text : string) : list Action :=
  [Print ("Writing default config to: " +:+ config_file);
   WriteText config_file config_text].

(** [write_config_file], with [os.path.exists(self.config_file)],
    [self.answer_yes], the text of [generate_config_file()] and the keys of
    the terminal as arguments. *)
Definition write_config_file (config_file config_text : string)
    (exists_ answer_yes : bool) (stdin : list Key) : outcome unit * list Action :=
  if exists_ && negb answer_yes then
    let prompt := "Overwrite " +:+ config_file +:+ " with default config? [y/N]" in
    match ask_until_decided prompt stdin with
    | (Ret answer, l) =>
        if startswith answer "n" then (Ret tt, l)
        else (Ret tt, l ++ writing config_file config_text)
    | (Raise e, l) => (Raise e, l)
    | (Hang, l) => (Hang, l)
    end
  else (Ret tt, writing config_file config_text).

(** The texts that a run writes to the config file. *)
Definition texts (l : list Action) : list string :=
  omap (fun x => match x with WriteText _ text => Some text | _ => None end) l.

(** A key that leaves the question open. *)
Definition unclear (k : Key) : Prop := decided (answer_of k) = false.

(** What the terminal shows for a key that leaves the question open. *)
Definition asked_again (prompt : string) (k : Key) : list Action :=
  Input prompt :: echo_of k ++ [please].

End dialogue.

(** ** Launches and terminations *)

(** The pids that a log launches. *)
Definition launches (l : list Event) : list Z :=
  omap (fun e => match e with EvPopen _ _ pid => Some pid | _ => None end) l.

(** [self.proxy_process] is the process of the last launch in the log. *)
Definition tracked (st : State) : Prop :=
  ∃ proc, proxy_process (self st) = Some proc ∧
          last (launches (events st)) = Some (pid proc).

(** An event that neither launches nor terminates a process. *)
Definition bystander (e : Event) : bool :=
  match e with
  | EvPopen _ _ _ | EvTerminate _ => false
  | _ => true
  end.

(** A step that terminates nothing and keeps track of the proxy process. *)
Definition carries_on (st st' : State) : Prop :=
  ∃ new, events st' = events st ++ new ∧
         terminated new = [] ∧
         (tracked st → tracked st').

Definition harmless {A} (m : M A) : Prop := ∀ st, carries_on st (snd (m st)).

(** A world in which the proxy dies at the first tick, and in which every
    launch gives a new pid. *)
Definition relaunching_world : World :=
  {| environ := ∅;
     getpid := 4242;
     new_token := fun _ => "5f2c9a";
     random_hex := fun _ _ => "c0ffee";
     spawn_pid := fun t => 4000 + Z.of_nat t;
     exit_status := fun t => if Nat.eqb t 25 then Some 1 else None;
     wait_up_result := fun _ _ _ => Up;
     stop_result := fun _ _ => Stopped;
     path_exists := fun _ _ => true;
     database := fun _ => orm.Rows [];
     schedule := [Tick];
     interrupted := true;
     host := sample_host;
     url_path_join := join_pieces |}.


(** Colliding ports with [pid_file] configured. *)
Definition clashing_with_pid_file : State :=
  boot calm_world (set_pid_file "/run/jupyterhub.pid" clashing_app).

(** A world whose database already holds two users from an earlier run,
    one of them the admin of this run. *)
Definition reopened_world : World :=
  {| environ := ∅;
     getpid := 4242;
     new_token := fun _ => "5f2c9a";
     random_hex := fun _ _ => "c0ffee";
     spawn_pid := fun _ => 4243;
     exit_status := fun _ => None;
     wait_up_result := fun _ _ _ => Up;
     stop_result := fun _ _ => Stopped;
     path_exists := fun _ _ => true;
     database := fun _ => orm.Rows [orm.EUser root; orm.EUser bob];
     schedule := [];
     interrupted := false;
     host := sample_host;
     url_path_join := join_pieces |}.

(** A world whose database cannot be opened. *)
Definition locked_world : World :=
  {| environ := ∅;
     getpid := 4242;
     new_token := fun _ => "5f2c9a";
     random_hex := fun _ _ => "c0ffee";
     spawn_pid := fun _ => 4243;
     exit_status := fun _ => None;
     wait_up_result := fun _ _ _ => Up;
     stop_result := fun _ _ => Stopped;
     path_exists := fun _ _ => true;
     database := fun _ => orm.Refused "unable to open database file";
     schedule := [];
     interrupted := false;
     host := sample_host;
     url_path_join := join_pieces |}.

(** * Properties *)

Ltac munfold :=
  unfold mbind, M_bind, mret, M_ret, bind, ret, raise, hang, emit, log,
    get_self, get_world, now, put_self, attr in *.

(** ** Port validation *)

Lemma init_ports_raises st :
  let a := self st in
  hub_port a = port a ∨ hub_port a = proxy_api_port_of a ∨ proxy_api_port_of a = port a →
  ∃ msg, init_ports st = (Raise (TraitError msg), st) ∧
    ((hub_port a = port a ∧
      msg = "The hub and proxy cannot both listen on port " +:+ str (port a)) ∨
     (hub_port a = proxy_api_port_of a ∧
      msg = "The hub and proxy API cannot both listen on port " +:+ str (hub_port a)) ∨
     (proxy_api_port_of a = port a ∧
      msg = "The proxy's public and API ports cannot both be " +:+ str (port a))).
Proof.
  intros a H. unfold init_ports. munfold. fold a.
  destruct (Z.eqb_spec (hub_port a) (port a)); [eauto 6|].
  destruct (Z.eqb_spec (hub_port a) (proxy_api_port_of a)); [eauto 6|].
  destruct (Z.eqb_spec (proxy_api_port_of a) (port a)); [eauto 7|].
  destruct H as [?|[?|?]]; done.
Qed.

Lemma init_ports_passes st :
  let a := self st in
  hub_port a ≠ port a → hub_port a ≠ proxy_api_port_of a → proxy_api_port_of a ≠ port a →
  init_ports st = (Ret tt, st).
Proof.
  intros a H1 H2 H3. unfold init_ports. munfold. fold a.
  destruct (Z.eqb_spec (hub_port a) (port a)); [done|].
  destruct (Z.eqb_spec (hub_port a) (proxy_api_port_of a)); [done|].
  destruct (Z.eqb_spec (proxy_api_port_of a) (port a)); done.
Qed.

(** What [main] comes to when the ports collide: the events up to the
    validation, the two fatal lines, and the exit. *)
Lemma main_port_conflict st :
  let a := self st in
  generate_config a = false →
  hub_port a = port a ∨ hub_port a = proxy_api_port_of a ∨ proxy_api_port_of a = port a →
  ∃ msg,
    fst (init_ports st) = Raise (TraitError msg) ∧
    fst (main st) = Raise (SystemExit 1) ∧
    self (snd (main st)) = a ∧
    events (snd (main st)) =
      events st ++
      [EvParseCommandLine; EvLoadConfigFile (config_file a)] ++
      (if truthy (pid_file a)
       then [EvLog logging.debug "Writing PID %i to %s" [AInt (getpid (world st)); AStr (pid_file a)];
             EvWriteFile (pid_file a) (str (getpid (world st)))]
       else []) ++
      [EvInitLogging;
       EvLog logging.fatal "Bad config encountered during initialization:" [];
       EvLog logging.fatal "%s" [AStr msg]].
Proof.
  intros a Hg H.
  destruct (init_ports_raises st H) as (msg & Hr & _). exists msg.
  split; [by rewrite Hr|].
  unfold main, initialize, catch_config_error, initialize_body, write_pid_file, init_logging.
  munfold. simpl. fold a. rewrite Hg. simpl.
  unfold init_ports in *. munfold. simpl in *. fold a in Hr.
  destruct (truthy (pid_file a)); simpl.
  all: destruct (hub_port a =? port a); simpl in *.
  all: try destruct (hub_port a =? proxy_api_port_of a); simpl in *.
  all: try destruct (proxy_api_port_of a =? port a); simpl in *.
  all: try discriminate Hr.
  all: injection Hr as <-.
  all: repeat split; repeat rewrite <- app_assoc; reflexivity.
Qed.

(** ** The readiness probes *)

Lemma set_proxy_process_same a p :
  proxy_process a = Some p →
  set_proxy_process (Some {| pid := pid p; returncode := returncode p |}) a = a.
Proof. destruct a, p; simpl; intros ->; reflexivity. Qed.

Lemma set_proxy_process_twice x y a :
  set_proxy_process x (set_proxy_process y a) = set_proxy_process x a.
Proof. reflexivity. Qed.

Lemma logged_nil st : logged [] st = st.
Proof. destruct st; unfold logged; simpl. by rewrite app_nil_r. Qed.

Lemma logged_logged l1 l2 st : logged l2 (logged l1 st) = logged (l1 ++ l2) st.
Proof. unfold logged; simpl. by rewrite app_assoc. Qed.

Lemma poll_eq st p :
  proxy_process (self st) = Some p →
  poll st = (Ret (observed st p), polled st p).
Proof.
  intros Hp. unfold poll, polled, observed. munfold. rewrite Hp. simpl.
  destruct (returncode p) as [c|] eqn:Hc; simpl; [|done].
  rewrite <- Hc, set_proxy_process_same by done. by rewrite Hc.
Qed.

Lemma polled_alive st p :
  proxy_process (self st) = Some p →
  observed st p = None →
  polled st p = logged [EvPoll None] st.
Proof.
  intros Hp Ho. unfold polled, logged. rewrite Ho.
  assert (returncode p = None) as Hr.
  { unfold observed in Ho. by destruct (returncode p). }
  by rewrite <- Hr, set_proxy_process_same.
Qed.

Lemma wait_up_eq st s :
  wait_up s 1 st =
  (match answer st s with
   | Up => Ret tt
   | TimedOut => Raise TimeoutError
   | Failed msg => Raise (OtherError msg)
   end, logged [EvWaitUp s 1 (answer st s)] st).
Proof.
  unfold wait_up, answer, logged. munfold. simpl.
  by destruct (wait_up_result _ _ _ _).
Qed.

Lemma _check_eq st p :
  proxy_process (self st) = Some p →
  _check st =
  (match observed st p with
   | Some c => Raise (RuntimeError ("Proxy failed to start with exit code " +:+ str c))
   | None => Ret tt
   end, polled st p).
Proof.
  intros Hp. unfold _check. unfold mbind, M_bind, bind. rewrite (poll_eq st p Hp).
  by destruct (observed st p).
Qed.

(** One round of the loop: the check, then the probe. *)
Lemma probe_loop_S n s st p :
  proxy_process (self st) = Some p →
  probe_loop (S n) s st =
  match observed st p with
  | Some c =>
      (Raise (RuntimeError ("Proxy failed to start with exit code " +:+ str c)), polled st p)
  | None =>
      let st1 := logged [EvPoll None] st in
      let st2 := logged [EvWaitUp s 1 (answer st1 s)] st1 in
      match answer st1 s with
      | Up => (Ret tt, st2)
      | TimedOut => probe_loop n s st2
      | Failed msg => (Raise (OtherError msg), st2)
      end
  end.
Proof.
  intros Hp. simpl. unfold mbind, M_bind, bind. rewrite (_check_eq st p Hp).
  destruct (observed st p) eqn:Ho; [done|].
  rewrite (polled_alive st p Hp Ho). unfold except_timeout. rewrite wait_up_eq.
  by destruct (answer _ s).
Qed.

Lemma LoopEnd_S s n k r tail : LoopEnd s n k r tail → LoopEnd s (S n) (S k) r tail.
Proof. destruct 1; constructor; lia. Qed.

Lemma probe_loop_shape n s : ∀ st p,
  proxy_process (self st) = Some p →
  ∃ k tail rc,
    LoopEnd s n k (fst (probe_loop n s st)) tail ∧
    events (snd (probe_loop n s st)) = events st ++ rounds k s ++ tail ∧
    world (snd (probe_loop n s st)) = world st ∧
    self (snd (probe_loop n s st)) =
      set_proxy_process (Some {| pid := pid p; returncode := rc |}) (self st).
Proof.
  induction n as [|n IH]; intros st p Hp.
  - exists 0%nat, [], (returncode p). simpl. split; [by constructor|].
    rewrite app_nil_r. by rewrite set_proxy_process_same.
  - rewrite (probe_loop_S n s st p Hp).
    destruct (observed st p) as [c|] eqn:Ho.
    { exists 0%nat, [EvPoll (Some c)], (Some c). simpl.
      split; [constructor; lia|]. by rewrite Ho. }
    simpl. set (st1 := logged [EvPoll None] st).
    destruct (answer st1 s) as [| |msg] eqn:Ha.
    + exists 0%nat, [EvPoll None; EvWaitUp s 1 Up], (returncode p). simpl.
      split; [constructor; lia|]. rewrite <- app_assoc.
      by rewrite set_proxy_process_same.
    + set (st2 := logged [EvWaitUp s 1 TimedOut] st1).
      destruct (IH st2 p Hp) as (k & tail & rc & He & Hev & Hw & Hs).
      exists (S k), tail, rc. split; [by apply LoopEnd_S|].
      rewrite Hev, Hw, Hs. simpl. by rewrite <- !app_assoc.
    + exists 0%nat, [EvPoll None; EvWaitUp s 1 (Failed msg)], (returncode p). simpl.
      split; [constructor; lia|]. rewrite <- app_assoc.
      by rewrite set_proxy_process_same.
Qed.

Lemma probe_server_eq s st :
  probe_server s st =
  match probe_loop 10 s st with
  | (Ret _, st1) => wait_up s 1 st1
  | (Raise e, st1) => (Raise e, st1)
  | (Hang, st1) => (Hang, st1)
  end.
Proof.
  unfold probe_server, mbind, M_bind, bind.
  by destruct (probe_loop 10 s st) as [[[]| |] ?].
Qed.

Lemma start_proxy_eq st p h :
  proxy (self st) = Some p →
  hub (self st) = Some h →
  start_proxy st =
  (probe_server (orm.public_server p);;
   probe_server (orm.api_server p);;
   log logging.debug "Proxy started and appears to be up" []) (launched st p h).
Proof.
  intros Hp Hh. unfold start_proxy, popen, launched. munfold. rewrite Hp, Hh. simpl.
  munfold. simpl. set (st0 := Build_State _ _ _).
  destruct (probe_server (orm.public_server p) st0) as [[[]| |] st1]; [|done..].
  destruct (probe_server (orm.api_server p) st1) as [[[]| |] ?]; done.
Qed.

Lemma probe_server_shape s st proc :
  proxy_process (self st) = Some proc →
  ∃ new rc,
    ServerEnd s (fst (probe_server s st)) new ∧
    events (snd (probe_server s st)) = events st ++ new ∧
    world (snd (probe_server s st)) = world st ∧
    self (snd (probe_server s st)) =
      set_proxy_process (Some {| pid := pid proc; returncode := rc |}) (self st).
Proof.
  intros Hp. rewrite probe_server_eq.
  destruct (probe_loop_shape 10 s st proc Hp) as (k & tail & rc & He & Hev & Hw & Hs).
  destruct (probe_loop 10 s st) as [r st1]. simpl in *.
  destruct r as [[]|e|].
  - rewrite wait_up_eq. simpl.
    exists (rounds k s ++ tail ++ [EvWaitUp s 1 (answer st1 s)]), rc.
    rewrite Hev, Hw, Hs, <- !app_assoc. split; [|done].
    destruct (answer st1 s); by constructor.
  - exists (rounds k s ++ tail), rc. simpl. split; [by constructor|done].
  - inversion He.
Qed.

Lemma start_proxy_shape st p h :
  proxy (self st) = Some p →
  hub (self st) = Some h →
  ∃ new rc,
    StartEnd p (fst (start_proxy st)) new ∧
    events (snd (start_proxy st)) = events (launched st p h) ++ new ∧
    world (snd (start_proxy st)) = world st ∧
    self (snd (start_proxy st)) =
      set_proxy_process
        (Some {| pid := spawn_pid (world st) (S (length (events st))); returncode := rc |})
        (self st).
Proof.
  intros Hp Hh. rewrite (start_proxy_eq st p h Hp Hh).
  set (st0 := launched st p h).
  assert (proxy_process (self st0) =
          Some {| pid := spawn_pid (world st) (S (length (events st))); returncode := None |})
    as Hproc.
  { unfold st0, launched. simpl. rewrite length_app. simpl.
    by rewrite Nat.add_1_r. }
  destruct (probe_server_shape (orm.public_server p) st0 _ Hproc)
    as (l1 & rc1 & He1 & Hev1 & Hw1 & Hs1).
  unfold mbind, M_bind, bind.
  destruct (probe_server (orm.public_server p) st0) as [r1 st1]. simpl in *.
  destruct r1 as [[]|e|]; [| |inversion He1].
  2:{ exists l1, rc1. simpl. split; [by constructor|]. by rewrite Hs1. }
  assert (proxy_process (self st1) =
          Some {| pid := spawn_pid (world st) (S (length (events st))); returncode := rc1 |})
    as Hproc1 by by rewrite Hs1.
  destruct (probe_server_shape (orm.api_server p) st1 _ Hproc1)
    as (l2 & rc2 & He2 & Hev2 & Hw2 & Hs2).
  destruct (probe_server (orm.api_server p) st1) as [r2 st2]. simpl in *.
  destruct r2 as [[]|e|]; [| |inversion He2].
  - exists (l1 ++ l2 ++ [started_line]), rc2. unfold log, emit. simpl.
    split; [by constructor|]. rewrite Hev2, Hev1, Hw2, Hw1, Hs2, Hs1, <- !app_assoc. done.
  - exists (l1 ++ l2), rc2. simpl.
    split; [by constructor|]. rewrite Hev2, Hev1, Hw2, Hw1, Hs2, Hs1, <- !app_assoc. done.
Qed.

(** A process that stays alive behind an endpoint that never answers: the
    loop spends its whole budget. *)
Lemma probe_loop_unreachable n s : ∀ st proc,
  proxy_process (self st) = Some proc →
  returncode proc = None →
  (∀ t, exit_status (world st) t = None) →
  (∀ t, wait_up_result (world st) t s 1 = TimedOut) →
  probe_loop n s st = (Ret tt, logged (rounds n s) st).
Proof.
  induction n as [|n IH]; intros st proc Hp Hr Hx Hw.
  - simpl. by rewrite logged_nil.
  - rewrite (probe_loop_S n s st proc Hp).
    unfold observed. rewrite Hr, Hx. simpl. unfold answer. simpl. rewrite Hw.
    rewrite (IH _ proc); [|done..].
    by rewrite !logged_logged.
Qed.

Lemma ServerEnd_ret s l :
  ServerEnd s (Ret tt) l →
  ∃ k tail, LoopEnd s 10 k (Ret tt) tail ∧ l = rounds k s ++ tail ++ [EvWaitUp s 1 Up].
Proof. inversion 1; eauto. Qed.

(** A [start_proxy] that returns has seen both endpoints up. *)
Lemma start_proxy_both_up st p h :
  proxy (self st) = Some p →
  hub (self st) = Some h →
  fst (start_proxy st) = Ret tt →
  ∃ l1 l2,
    events (snd (start_proxy st)) =
      events (launched st p h) ++
      l1 ++ [EvWaitUp (orm.public_server p) 1 Up] ++
      l2 ++ [EvWaitUp (orm.api_server p) 1 Up] ++ [started_line].
Proof.
  intros Hp Hh Hr.
  destruct (start_proxy_shape st p h Hp Hh) as (new & rc & He & Hev & _).
  rewrite Hr in He. inversion He as [l1 l2 H1 H2| |]; subst.
  apply ServerEnd_ret in H1 as (k1 & t1 & _ & ->).
  apply ServerEnd_ret in H2 as (k2 & t2 & _ & ->).
  exists (rounds k1 (orm.public_server p) ++ t1), (rounds k2 (orm.api_server p) ++ t2).
  rewrite Hev, <- !app_assoc. reflexivity.
Qed.

Example ready_has_proxy : proxy (self ready) = Some ready_proxy.
Proof. vm_compute. reflexivity. Qed.

Example ready_has_hub : hub (self ready) = Some ready_hub.
Proof. vm_compute. reflexivity. Qed.

(** C1. For each of the two endpoints, public then control-API,
    [start_proxy] makes at most 10 probe attempts, each a [wait_up] with
    timeout 1 that follows a liveness check, and a timed-out probe is
    followed by the next attempt while the budget lasts.  Once the loop has
    returned, by exhaustion or by [break], one more [wait_up] is made with no
    liveness check before it, and its timeout is the [TimeoutError] of
    [start_proxy].  [start_proxy] returns only after both endpoints have
    answered a [wait_up]; behind an endpoint that never answers it raises
    [TimeoutError] after the 10 attempts and the final wait. *)
Theorem start_proxy_probes_each_endpoint (st : State) (p : orm.Proxy) (h : orm.Hub) :
  proxy (self st) = Some p →
  hub (self st) = Some h →
  (∀ s st0 proc, proxy_process (self st0) = Some proc →
     ∃ k tail, (k ≤ 10)%nat ∧
       LoopEnd s 10 k (fst (probe_loop 10 s st0)) tail ∧
       events (snd (probe_loop 10 s st0)) = events st0 ++ rounds k s ++ tail) ∧
  (∀ s st0 st1, probe_loop 10 s st0 = (Ret tt, st1) →
     probe_server s st0 =
       (match answer st1 s with
        | Up => Ret tt
        | TimedOut => Raise TimeoutError
        | Failed msg => Raise (OtherError msg)
        end, logged [EvWaitUp s 1 (answer st1 s)] st1)) ∧
  (∃ new, StartEnd p (fst (start_proxy st)) new ∧
     events (snd (start_proxy st)) = events (launched st p h) ++ new) ∧
  (fst (start_proxy st) = Ret tt →
     ∃ l1 l2,
       events (snd (start_proxy st)) =
         events (launched st p h) ++
         l1 ++ [EvWaitUp (orm.public_server p) 1 Up] ++
         l2 ++ [EvWaitUp (orm.api_server p) 1 Up] ++ [started_line]) ∧
  ((∀ t, exit_status (world st) t = None) →
   (∀ t, wait_up_result (world st) t (orm.public_server p) 1 = TimedOut) →
     start_proxy st =
       (Raise TimeoutError,
        logged (rounds 10 (orm.public_server p) ++
                [EvWaitUp (orm.public_server p) 1 TimedOut]) (launched st p h))).
Proof.
  intros Hp Hh. split; [|split; [|split; [|split]]].
  - intros s st0 proc Hproc.
    destruct (probe_loop_shape 10 s st0 proc Hproc) as (k & tail & rc & He & Hev & _).
    exists k, tail. split; [|done]. inversion He; lia.
  - intros s st0 st1 Hl. rewrite probe_server_eq, Hl. apply wait_up_eq.
  - destruct (start_proxy_shape st p h Hp Hh) as (new & rc & He & Hev & _). eauto.
  - by apply start_proxy_both_up.
  - intros Hx Hw. rewrite (start_proxy_eq st p h Hp Hh).
    unfold mbind, M_bind, bind at 1. rewrite probe_server_eq.
    erewrite probe_loop_unreachable; [|reflexivity|reflexivity|done|done].
    rewrite wait_up_eq. unfold answer. simpl. rewrite Hw.
    by rewrite logged_logged.
Qed.

Lemma start_proxy_probes_each_endpoint_witness :
  ∃ new, StartEnd ready_proxy (fst (start_proxy ready)) new ∧
    events (snd (start_proxy ready)) = events (launched ready ready_proxy ready_hub) ++ new.
Proof.
  destruct (start_proxy_probes_each_endpoint ready ready_proxy ready_hub)
    as (_ & _ & H & _).
  - vm_compute. reflexivity.
  - vm_compute. reflexivity.
  - exact H.
Defined.

(** ** A proxy that has already exited *)

Lemma length_launched st p h :
  length (events (launched st p h)) = (length (events st) + 2)%nat.
Proof. unfold launched. simpl. rewrite !length_app. simpl. lia. Qed.

Lemma rounds_S k s : rounds (S k) s = round s ++ rounds k s.
Proof. reflexivity. Qed.

Lemma length_rounds k s : length (rounds k s) = (2 * k)%nat.
Proof.
  induction k as [|k IH]; [done|]. rewrite rounds_S, length_app, IH. simpl. lia.
Qed.

(** [k] timed-out rounds, then attempt [k + 1] finds the process gone. *)
Lemma probe_loop_gone_after k s : ∀ m st proc c,
  proxy_process (self st) = Some proc →
  returncode proc = None →
  stalls (world st) (length (events st)) k s →
  exit_status (world st) (length (events st) + 2 * k) = Some c →
  fst (probe_loop (k + S m) s st) = Raise (launch_error c) ∧
  events (snd (probe_loop (k + S m) s st)) = events st ++ rounds k s ++ [EvPoll (Some c)].
Proof.
  induction k as [|k IH]; intros m st proc c Hp Hr [Hx Ht] Hc.
  - change (0 + S m)%nat with (S m). rewrite (probe_loop_S m s st proc Hp).
    rewrite Nat.mul_0_r, Nat.add_0_r in Hc.
    assert (observed st proc = Some c) as Ho by (unfold observed; by rewrite Hr).
    rewrite Ho. unfold polled. cbn [fst snd events]. by rewrite Ho.
  - change (S k + S m)%nat with (S (k + S m)). rewrite (probe_loop_S _ s st proc Hp).
    pose proof (Hx 0%nat (Nat.lt_0_succ _)) as Hx0.
    rewrite Nat.mul_0_r, Nat.add_0_r in Hx0.
    assert (observed st proc = None) as Ho by (unfold observed; by rewrite Hr).
    rewrite Ho. cbv zeta. unfold answer. cbn [logged events world].
    rewrite length_app. cbn [length].
    pose proof (Ht 0%nat (Nat.lt_0_succ _)) as Ht0.
    rewrite Nat.mul_0_r, Nat.add_0_r in Ht0. rewrite Ht0.
    set (st2 := logged [EvWaitUp s 1 TimedOut] (logged [EvPoll None] st)).
    destruct (IH m st2 proc c) as [H1 H2]; [done|done| |  |].
    + split; intros i Hi; unfold st2; cbn [logged events world];
        rewrite !length_app; cbn [length].
      * replace (length (events st) + 1 + 1 + 2 * i)%nat
          with (length (events st) + 2 * S i)%nat by lia.
        apply Hx. lia.
      * replace (length (events st) + 1 + 1 + 2 * i + 1)%nat
          with (length (events st) + 2 * S i + 1)%nat by lia.
        apply Ht. lia.
    + unfold st2. cbn [logged events world]. rewrite !length_app. cbn [length].
      replace (length (events st) + 1 + 1 + 2 * k)%nat
        with (length (events st) + 2 * S k)%nat by lia.
      exact Hc.
    + split; [exact H1|]. rewrite H2. unfold st2. cbn [logged events].
      rewrite rounds_S. unfold round. by rewrite <- !app_assoc.
Qed.

(** While the process lives, probing leaves the application object as it
    was. *)
Lemma probe_loop_alive n s : ∀ st proc,
  proxy_process (self st) = Some proc →
  returncode proc = None →
  fst (probe_loop n s st) = Ret tt →
  self (snd (probe_loop n s st)) = self st ∧ world (snd (probe_loop n s st)) = world st.
Proof.
  induction n as [|n IH]; intros st proc Hp Hr; [done|].
  rewrite (probe_loop_S n s st proc Hp).
  destruct (observed st proc) as [c|]; [done|]. cbv zeta.
  destruct (answer _ s); [done| |done].
  intros Hret.
  destruct (IH (logged [EvWaitUp s 1 TimedOut] (logged [EvPoll None] st)) proc Hp Hr Hret)
    as [H1 H2].
  split; [exact H1|exact H2].
Qed.

Lemma probe_server_alive s st proc st1 :
  proxy_process (self st) = Some proc →
  returncode proc = None →
  probe_server s st = (Ret tt, st1) →
  self st1 = self st ∧ world st1 = world st.
Proof.
  intros Hp Hr. rewrite probe_server_eq.
  pose proof (probe_loop_alive 10 s st proc Hp Hr) as Ha.
  destruct (probe_loop 10 s st) as [[[]|e|] st0]; cbn [fst snd] in Ha; [|done..].
  rewrite wait_up_eq. intros [= _ <-]. by apply Ha.
Qed.

(** C6. Whichever attempt it is, and on whichever endpoint: when the process
    has already exited as the attempt begins, [start_proxy] raises the
    launch error with the exit code after the liveness check of that
    attempt alone: its log ends with that check, so that no probe of this
    attempt, no further attempt and no probe of the other endpoint
    follows.  A process that is gone right after the launch makes
    [start_proxy] fail without a single probe, and with code 17 the error
    reports 17. *)
Theorem exited_proxy_fails_at_once
    (st : State) (p : orm.Proxy) (h : orm.Hub) (c : Z) (k : nat) :
  proxy (self st) = Some p →
  hub (self st) = Some h →
  (k < 10)%nat →
  let w := world st in
  let st0 := launched st p h in
  let pub := orm.public_server p in
  let api := orm.api_server p in
  (stalls w (length (events st0)) k pub →
   exit_status w (length (events st0) + 2 * k) = Some c →
   fst (start_proxy st) = Raise (launch_error c) ∧
   events (snd (start_proxy st)) = events st0 ++ rounds k pub ++ [EvPoll (Some c)]) ∧
  (∀ st1,
     probe_server pub st0 = (Ret tt, st1) →
     stalls w (length (events st1)) k api →
     exit_status w (length (events st1) + 2 * k) = Some c →
     fst (start_proxy st) = Raise (launch_error c) ∧
     events (snd (start_proxy st)) = events st1 ++ rounds k api ++ [EvPoll (Some c)]) ∧
  (∀ n s st2 proc,
     proxy_process (self st2) = Some proc →
     observed st2 proc = Some c →
     fst (probe_loop (S n) s st2) = Raise (launch_error c) ∧
     events (snd (probe_loop (S n) s st2)) = events st2 ++ [EvPoll (Some c)]) ∧
  (exit_status w (length (events st0)) = Some c →
   probes (events (snd (start_proxy st))) = probes (events st)) ∧
  launch_error 17 = RuntimeError "Proxy failed to start with exit code 17".
Proof.
  intros Hp Hh Hk w st0 pub api.
  set (proc0 := {| pid := spawn_pid (world st) (length (events st ++
                     [EvLog logging.info "Starting proxy: %s"
                        [AList (proxy_command (world st) (self st) p h)]]));
                   returncode := None |}).
  assert (proxy_process (self st0) = Some proc0) as Hproc by reflexivity.
  assert (∀ k', (k' < 10)%nat →
            stalls w (length (events st0)) k' pub →
            exit_status w (length (events st0) + 2 * k') = Some c →
            fst (start_proxy st) = Raise (launch_error c) ∧
            events (snd (start_proxy st)) =
              events st0 ++ rounds k' pub ++ [EvPoll (Some c)]) as Hpub.
  { intros k' Hk' Hst Hc.
    assert (∃ st', start_proxy st = (Raise (launch_error c), st') ∧
                   events st' = events st0 ++ rounds k' pub ++ [EvPoll (Some c)])
      as (st' & -> & Hev); [|done].
    rewrite (start_proxy_eq st p h Hp Hh). fold st0 pub api.
    unfold mbind, M_bind, bind at 1. rewrite probe_server_eq.
    replace 10%nat with (k' + S (9 - k'))%nat by lia.
    destruct (probe_loop_gone_after k' pub (9 - k') st0 proc0 c Hproc eq_refl Hst Hc)
      as [H1 H2].
    destruct (probe_loop _ pub st0) as [r st']. cbn [fst snd] in H1, H2. subst r.
    by exists st'. }
  split; [by apply Hpub|]. split; [|split; [|split; [|done]]].
  - intros st1 Hup Hst Hc.
    destruct (probe_server_alive pub st0 proc0 st1 Hproc eq_refl Hup) as [Hs Hw].
    assert (∃ st', start_proxy st = (Raise (launch_error c), st') ∧
                   events st' = events st1 ++ rounds k api ++ [EvPoll (Some c)])
      as (st' & -> & Hev); [|done].
    rewrite (start_proxy_eq st p h Hp Hh). fold st0 pub api.
    unfold mbind, M_bind, bind at 1. rewrite Hup.
    unfold mbind, M_bind, bind at 1. rewrite probe_server_eq.
    replace 10%nat with (k + S (9 - k))%nat by lia.
    assert (proxy_process (self st1) = Some proc0) as Hproc1 by (by rewrite Hs).
    destruct (probe_loop_gone_after k api (9 - k) st1 proc0 c Hproc1 eq_refl)
      as [H1 H2]; [by rewrite Hw|by rewrite Hw|].
    destruct (probe_loop _ api st1) as [r st']. cbn [fst snd] in H1, H2. subst r.
    by exists st'.
  - intros n s st2 proc Hproc2 Ho.
    rewrite (probe_loop_S n s st2 proc Hproc2), Ho. unfold polled.
    cbn [fst snd events]. by rewrite Ho.
  - intros Hc. destruct (Hpub 0%nat) as [_ Hev]; [lia|by split; intros i Hi; lia| |].
    + by rewrite Nat.mul_0_r, Nat.add_0_r.
    + rewrite Hev. unfold st0, launched, probes. cbn [logged events rounds].
      rewrite !omap_app. simpl. by rewrite !app_nil_r.
Qed.

Lemma exited_proxy_fails_at_once_witness :
  (fst (start_proxy doomed) = Raise (RuntimeError "Proxy failed to start with exit code 17") ∧
   probes (events (snd (start_proxy doomed))) = []) ∧
  (fst (start_proxy fading) = Raise (RuntimeError "Proxy failed to start with exit code 17") ∧
   probes (events (snd (start_proxy fading))) = [Up; Up; TimedOut; TimedOut]).
Proof.
  split.
  - destruct (exited_proxy_fails_at_once doomed ready_proxy ready_hub 17 0)
      as (Hfirst & _ & _ & Hn & Hm).
    + vm_compute. reflexivity.
    + vm_compute. reflexivity.
    + lia.
    + destruct Hfirst as [Hr _].
      * split; intros i Hi; lia.
      * vm_compute. reflexivity.
      * rewrite <- Hm. split; [exact Hr|]. rewrite Hn; vm_compute; reflexivity.
  - destruct (exited_proxy_fails_at_once fading ready_proxy ready_hub 17 2)
      as (_ & Hapi & _ & _ & Hm).
    + vm_compute. reflexivity.
    + vm_compute. reflexivity.
    + lia.
    + destruct (Hapi (snd (probe_server (orm.public_server ready_proxy)
                             (launched fading ready_proxy ready_hub)))) as [Hr Hev].
      * vm_compute. reflexivity.
      * split; intros i Hi; (destruct i as [|[|i]]; [vm_compute; reflexivity..|lia]).
      * vm_compute. reflexivity.
      * rewrite <- Hm. split; [exact Hr|]. rewrite Hev. vm_compute. reflexivity.
Defined.

(** ** The auth token of the proxy *)

Lemma init_proxy_token st s :
  db (self st) = Some s →
  fst (init_proxy st) = Ret tt ∧
  ∃ p, proxy (self (snd (init_proxy st))) = Some p ∧
       orm.auth_token p = new_token (world st) (length (events st)).
Proof.
  intros Hdb. unfold init_proxy, db_add, db_commit. munfold. simpl.
  rewrite Hdb. simpl. eauto.
Qed.

(** C4. With [proxy_auth_token] configured, the Proxy that [init_proxy]
    creates still carries a token drawn from [orm.new_token()]: the
    configured value is never read. *)
Theorem init_proxy_ignores_configured_token :
  let st := snd (initialize (boot calm_world operator_app)) in
  proxy_auth_token (self st) = Some "operator-secret" ∧
  orm.auth_token <$> proxy (self st) = Some "5f2c9a" ∧
  orm.auth_token <$> proxy (self st) ≠ proxy_auth_token (self st).
Proof. vm_compute. repeat split; congruence. Qed.

(** ** The command line of the proxy *)

Lemma rounds_probing k s : Forall is_probing (rounds k s).
Proof.
  unfold rounds. induction k as [|k IH]; simpl; [constructor|].
  repeat constructor. exact IH.
Qed.

Lemma LoopEnd_probing s n k r tail : LoopEnd s n k r tail → Forall is_probing tail.
Proof. destruct 1; repeat constructor. Qed.

Lemma ServerEnd_probing s r l : ServerEnd s r l → Forall is_probing l.
Proof.
  destruct 1; rewrite ?Forall_app; repeat split;
    eauto using rounds_probing, LoopEnd_probing; repeat constructor.
Qed.

Lemma StartEnd_probing p r l : StartEnd p r l → Forall is_probing l.
Proof.
  destruct 1; rewrite ?Forall_app; repeat split;
    eauto using ServerEnd_probing; repeat constructor.
Qed.

(** C9. The argv that [start_proxy] hands to [Popen] is built from the
    fixed flags and the configured values alone: it is the same whatever
    the auth token is, and it does not hold the token unless a configured
    value happens to spell it.  The token travels in the environment, under
    [CONFIGPROXY_AUTH_TOKEN]; this holds with or without TLS material and at
    any log level. *)
Theorem token_travels_in_environment (st : State) (p : orm.Proxy) (h : orm.Hub) :
  proxy (self st) = Some p →
  hub (self st) = Some h →
  let cmd := proxy_command (world st) (self st) p h in
  let env := <["CONFIGPROXY_AUTH_TOKEN" := orm.auth_token p]> (environ (world st)) in
  (∃ pid rest,
     events (snd (start_proxy st)) =
       events st ++
       [EvLog logging.info "Starting proxy: %s" [AList cmd]; EvPopen cmd env pid] ++ rest ∧
     Forall is_probing rest) ∧
  env !! "CONFIGPROXY_AUTH_TOKEN" = Some (orm.auth_token p) ∧
  (∀ tok, proxy_command (world st) (self st) (with_token tok p) h = cmd) ∧
  (∀ x, x ∈ cmd → x ∈ flag_words ∨ x ∈ configured_words (world st) (self st) p h) ∧
  (orm.auth_token p ∉ flag_words ++ configured_words (world st) (self st) p h →
   orm.auth_token p ∉ cmd).
Proof.
  intros Hp Hh cmd env.
  assert (∀ x, x ∈ cmd → x ∈ flag_words ∨ x ∈ configured_words (world st) (self st) p h)
    as Hwords.
  { intros x. unfold cmd, proxy_command, flag_words, configured_words.
    destruct (log_level (self st) =? logging.DEBUG);
      destruct (truthy (ssl_key (self st)));
      destruct (truthy (ssl_cert (self st))); simpl; intros Hin;
      repeat (apply elem_of_cons in Hin as [->|Hin]);
      try (by apply elem_of_nil in Hin);
      first [ left; solve [repeat first [apply list_elem_of_here | apply list_elem_of_further]]
            | right; solve [repeat first [apply list_elem_of_here | apply list_elem_of_further]] ]. }
  split; [|split; [|split; [|split]]].
  - destruct (start_proxy_shape st p h Hp Hh) as (new & rc & He & Hev & _).
    eexists _, new. split; [|by eapply StartEnd_probing].
    rewrite Hev. unfold launched. simpl. by rewrite <- !app_assoc.
  - apply lookup_insert_eq.
  - reflexivity.
  - exact Hwords.
  - intros Hfresh Hin. apply Hfresh, elem_of_app. by apply Hwords.
Qed.

Lemma token_travels_in_environment_witness :
  orm.auth_token ready_proxy ∉
    proxy_command (world ready) (self ready) ready_proxy ready_hub.
Proof.
  destruct (token_travels_in_environment ready ready_proxy ready_hub)
    as (_ & _ & _ & _ & H).
  - vm_compute. reflexivity.
  - vm_compute. reflexivity.
  - apply H. intros Hin. apply list_elem_of_In in Hin. vm_compute in Hin.
    intuition discriminate.
Defined.

(** ** Port validation, as a whole *)

(** C5. When two of the three ports (hub, proxy-public, proxy-API) are
    equal, [init_ports] raises a [TraitError] whose message names two roles
    that do collide and the port, and [main] exits before anything is
    launched; when the three ports are pairwise distinct, [init_ports]
    returns and leaves the state and the log as they were. *)
Theorem init_ports_rejects_equal_ports (st : State) :
  let a := self st in
  (hub_port a = port a ∨ hub_port a = proxy_api_port_of a ∨ proxy_api_port_of a = port a →
   (∃ msg, init_ports st = (Raise (TraitError msg), st) ∧
      ((hub_port a = port a ∧
        msg = "The hub and proxy cannot both listen on port " +:+ str (port a)) ∨
       (hub_port a = proxy_api_port_of a ∧
        msg = "The hub and proxy API cannot both listen on port " +:+ str (hub_port a)) ∨
       (proxy_api_port_of a = port a ∧
        msg = "The proxy's public and API ports cannot both be " +:+ str (port a)))) ∧
   (generate_config a = false →
    fst (main st) = Raise (SystemExit 1) ∧
    ∃ new, events (snd (main st)) = events st ++ new ∧
           Forall (fun e => is_popen e = false) new)) ∧
  (hub_port a ≠ port a → hub_port a ≠ proxy_api_port_of a → proxy_api_port_of a ≠ port a →
   init_ports st = (Ret tt, st)).
Proof.
  intros a. split; [|apply init_ports_passes].
  intros H. split; [by apply init_ports_raises|].
  intros Hg. destruct (main_port_conflict st Hg H) as (msg & _ & Hr & _ & Hev).
  split; [done|]. eexists. split; [exact Hev|].
  destruct (truthy (pid_file (self st))); repeat constructor.
Qed.

Lemma init_ports_rejects_equal_ports_witness :
  fst (main (boot calm_world clashing_app)) = Raise (SystemExit 1).
Proof.
  destruct (init_ports_rejects_equal_ports (boot calm_world clashing_app)) as [H _].
  destruct H as [_ H].
  - left. reflexivity.
  - destruct H as [H _]; [reflexivity|exact H].
Defined.

(** ** The hub prefix *)

Lemma endswith_cons c s p : endswith s p = true → endswith (String c s) p = true.
Proof. intros H. simpl. rewrite H. apply orb_true_r. Qed.

Lemma endswith_app s p : endswith (s +:+ p) p = true.
Proof.
  induction s as [|c s IH]; simpl.
  - destruct p; simpl; [done|]. by rewrite Ascii.eqb_refl, String.eqb_refl.
  - rewrite IH. apply orb_true_r.
Qed.

Lemma startswith_app s t p : startswith s p = true → startswith (s +:+ t) p = true.
Proof.
  revert s. induction p as [|c p IH]; intros s H.
  { by destruct (s +:+ t). }
  destruct s as [|d s]; [done|].
  change (String d s +:+ t) with (String d (s +:+ t)). simpl in *.
  destruct (Ascii.eqb c d); [by apply IH|done].
Qed.

Lemma _hub_prefix_changed_S v d name old new st :
  _hub_prefix_changed v (S d) name old new st =
  if String.eqb new "/" then (Raise bad_prefix, st)
  else
    let nn := normalised (world st) (self st) new in
    if negb (String.eqb nn new)
    then set_trait_hub_prefix v (_hub_prefix_changed v d) nn st
    else (Ret tt, st).
Proof.
  simpl. munfold. destruct (String.eqb new "/"); [reflexivity|].
  unfold normalised. cbv zeta.
  match goal with
  | |- context [negb (String.eqb ?x new)] => destruct (negb (String.eqb x new))
  end; reflexivity.
Qed.

Lemma normalised_well_formed w a new :
  joins_under w (base_url a) →
  well_formed (base_url a) (normalised w a new).
Proof.
  intros Hj. unfold normalised.
  set (n1 := if negb (startswith new "/") then "/" +:+ new else new).
  assert (startswith n1 "/" = true) as H1.
  { unfold n1. destruct (startswith new "/") eqn:E; [done|]. by destruct new. }
  set (n2 := if negb (endswith n1 "/") then n1 +:+ "/" else n1).
  assert (startswith n2 "/" = true ∧ endswith n2 "/" = true) as [H2 H3].
  { unfold n2. destruct (endswith n1 "/") eqn:E; simpl; [done|].
    split; [by apply startswith_app|apply endswith_app]. }
  destruct (startswith n2 (base_url a)) eqn:E; simpl; [done|].
  by apply Hj.
Qed.

Lemma normalised_fixed w a s :
  well_formed (base_url a) s → normalised w a s = s.
Proof.
  intros (H1 & H2 & H3). unfold normalised.
  rewrite H1. cbn [negb]. rewrite H2. cbn [negb]. by rewrite H3.
Qed.

Lemma set_trait_hub_prefix_eq v notify value st :
  set_trait_hub_prefix v notify value st =
  if same_value (old_hub_prefix v (world st) (self st)) value
  then (Ret tt, stored value st)
  else notify "hub_prefix" (old_hub_prefix v (world st) (self st)) value (stored value st).
Proof.
  unfold set_trait_hub_prefix. munfold. simpl.
  by destruct (same_value _ value).
Qed.

Lemma stored_same s st : hub_prefix (self st) = Some s → stored s st = st.
Proof.
  destruct st as [a w ev]. unfold stored. simpl. intros H. f_equal.
  destruct a; simpl in *. by rewrite H.
Qed.

Lemma same_value_spec old value : same_value old value = true ↔ old = Some value.
Proof.
  destruct old as [s|]; simpl; [|done]. rewrite String.eqb_eq.
  split; [by intros ->|by intros [= ->]].
Qed.

(** Once the trait holds a value, that value is the old one for both
    libraries. *)
Lemma old_hub_prefix_stored v w a s :
  hub_prefix a = Some s → old_hub_prefix v w a = Some s.
Proof. intros H. unfold old_hub_prefix. by rewrite H. Qed.

(** The handler on a value in normal form: nothing to do. *)
Lemma _hub_prefix_changed_fixed v d name old s st :
  well_formed (base_url (self st)) s → s ≠ "/" →
  _hub_prefix_changed v (S d) name old s st = (Ret tt, st).
Proof.
  intros Hwf Hne. rewrite _hub_prefix_changed_S.
  destruct (String.eqb_spec s "/"); [done|]. simpl.
  by rewrite normalised_fixed, String.eqb_refl.
Qed.

(** An assignment that changes the trait. *)
Lemma assign_hub_prefix_changes v d value st :
  joins_under (world st) (base_url (self st)) →
  old_hub_prefix v (world st) (self st) ≠ Some value →
  let nn := normalised (world st) (self st) value in
  assign_hub_prefix v (S (S d)) value st =
  if String.eqb value "/" then (Raise bad_prefix, stored "/" st)
  else if String.eqb nn value then (Ret tt, stored value st)
  else if String.eqb nn "/" then (Raise bad_prefix, stored "/" st)
  else (Ret tt, stored nn st).
Proof.
  intros Hj Hold nn. unfold assign_hub_prefix.
  rewrite set_trait_hub_prefix_eq.
  destruct (same_value _ value) eqn:Hsv; [by apply same_value_spec in Hsv|].
  rewrite _hub_prefix_changed_S.
  destruct (String.eqb_spec value "/") as [->|Hv]; [done|].
  change (normalised (world (stored value st)) (self (stored value st)) value) with nn.
  cbv zeta. destruct (String.eqb_spec nn value) as [Hn|Hn]; [done|]. simpl negb. cbv iota.
  rewrite set_trait_hub_prefix_eq.
  rewrite (old_hub_prefix_stored v _ (self (stored value st)) value) by reflexivity.
  cbn [same_value].
  destruct (String.eqb_spec value nn) as [Hn'|_]; [by symmetry in Hn'|].
  rewrite _hub_prefix_changed_S.
  destruct (String.eqb_spec nn "/") as [->|Hs]; [done|].
  cbv zeta.
  rewrite normalised_fixed; [by rewrite String.eqb_refl|].
  apply (normalised_well_formed (world st) (self st) value Hj).
Qed.

(** C10, as stated, fails in three ways, under either library unless said
    otherwise.  The value is stored before the handler runs, so ['/'] stays
    stored when the handler has rejected it, and assigning ['/'] once more
    raises nothing.  Under a base URL that does not start with a slash the
    handler never reaches a fixed point: the assignment ends in the
    recursion limit and leaves a prefix that does not start with a slash.
    And an assignment of the value that the trait already has runs no
    handler: under IPython 2 and an empty base URL, the default ['hub/'] is
    stored as it is. *)
Lemma hub_prefix_escapes_normalisation :
  (let r := assign_hub_prefix IPython2 2 "/" (boot calm_world default_app) in
   fst r = Raise bad_prefix ∧ hub_prefix (self (snd r)) = Some "/" ∧
   assign_hub_prefix IPython2 2 "/" (snd r) = (Ret tt, snd r)) ∧
  (let r := assign_hub_prefix IPython3 2 "/" (boot calm_world default_app) in
   fst r = Raise bad_prefix ∧ hub_prefix (self (snd r)) = Some "/" ∧
   assign_hub_prefix IPython3 2 "/" (snd r) = (Ret tt, snd r)) ∧
  (let r := assign_hub_prefix IPython2 6 "/x/" relative in
   fst r = Raise (RuntimeError "maximum recursion depth exceeded") ∧
   ∃ s, hub_prefix (self (snd r)) = Some s ∧ startswith s "/" = false) ∧
  (let r := assign_hub_prefix IPython3 6 "/x/" relative in
   fst r = Raise (RuntimeError "maximum recursion depth exceeded") ∧
   ∃ s, hub_prefix (self (snd r)) = Some s ∧ startswith s "/" = false) ∧
  (let r := assign_hub_prefix IPython2 2 "hub/" unbased in
   fst r = Ret tt ∧ hub_prefix (self (snd r)) = Some "hub/").
Proof.
  split; [by vm_compute|]. split; [by vm_compute|].
  split; [split; [by vm_compute|eexists; by vm_compute]|].
  split; [split; [by vm_compute|eexists; by vm_compute]|].
  by vm_compute.
Qed.

(** C10, amended.  The handler rejects ['/'], so that assigning ['/'] over
    another value raises.  Given a [url_path_join] that joins under the
    base URL, any assignment whose value differs from the old one leaves a
    stored prefix that starts and ends with ['/']; when the assignment
    returns, the stored prefix is the normalised value, it starts with the
    base URL, and assigning it again changes nothing; when it raises, the
    normal form of the value was ['/'] and ['/'] is what is stored.  A
    value already in normal form is stored as it is, and so is, with no
    handler run, the value that the trait already has.  All of this holds
    under either library. *)
Theorem hub_prefix_is_normalised (v : Traitlets) (st : State) :
  let w := world st in
  let b := base_url (self st) in
  joins_under w b →
  (∀ d name old st0,
     _hub_prefix_changed v (S d) name old "/" st0 = (Raise bad_prefix, st0)) ∧
  (∀ d, old_hub_prefix v w (self st) ≠ Some "/" →
     fst (assign_hub_prefix v (S d) "/" st) = Raise bad_prefix) ∧
  (∀ d value, old_hub_prefix v w (self st) ≠ Some value →
     let r := assign_hub_prefix v (S (S d)) value st in
     ∃ s, hub_prefix (self (snd r)) = Some s ∧
          startswith s "/" = true ∧ endswith s "/" = true ∧
          ((fst r = Ret tt ∧ s = normalised w (self st) value ∧
            startswith s b = true ∧ s ≠ "/" ∧
            assign_hub_prefix v (S d) s (snd r) = (Ret tt, snd r)) ∨
           (fst r = Raise bad_prefix ∧ s = "/"))) ∧
  (∀ d s st0, world st0 = w → base_url (self st0) = b →
     well_formed b s → s ≠ "/" →
     fst (assign_hub_prefix v (S d) s st0) = Ret tt ∧
     hub_prefix (self (snd (assign_hub_prefix v (S d) s st0))) = Some s) ∧
  (∀ d value st0, old_hub_prefix v (world st0) (self st0) = Some value →
     assign_hub_prefix v d value st0 = (Ret tt, stored value st0)).
Proof.
  intros w b Hj.
  assert (∀ d s st0, hub_prefix (self st0) = Some s →
            assign_hub_prefix v d s st0 = (Ret tt, st0)) as Hsame.
  { intros d s st0 Hs. unfold assign_hub_prefix. rewrite set_trait_hub_prefix_eq.
    rewrite (old_hub_prefix_stored v _ _ s Hs). cbn [same_value].
    rewrite String.eqb_refl. by rewrite stored_same. }
  split; [|split; [|split; [|split]]].
  - intros d name old st0. by rewrite _hub_prefix_changed_S.
  - intros d Hold. unfold assign_hub_prefix. rewrite set_trait_hub_prefix_eq.
    destruct (same_value _ "/") eqn:Hsv; [by apply same_value_spec in Hsv|].
    by rewrite _hub_prefix_changed_S.
  - intros d value Hold r. unfold r.
    rewrite (assign_hub_prefix_changes v d value st Hj Hold).
    destruct (normalised_well_formed w (self st) value Hj) as (N1 & N2 & N3).
    fold w. set (nn := normalised w (self st) value) in *.
    destruct (String.eqb_spec value "/") as [->|Hv].
    { exists "/". simpl. eauto 10. }
    destruct (String.eqb_spec nn value) as [Hn|Hn].
    { exists value. simpl. rewrite <- Hn. repeat split; [done..|]. left.
      repeat split; [done|by rewrite Hn|]. rewrite Hn. by apply Hsame. }
    destruct (String.eqb_spec nn "/") as [Hs|Hs].
    { exists "/". simpl. eauto 10. }
    exists nn. simpl. repeat split; [done..|]. left.
    repeat split; [done..|]. by apply Hsame.
  - intros d s st0 Hw Hb Hwf Hne. unfold assign_hub_prefix.
    rewrite set_trait_hub_prefix_eq.
    destruct (same_value _ s); [done|].
    rewrite _hub_prefix_changed_fixed; [done| |done].
    simpl. by rewrite Hb.
  - intros d value st0 Hold. unfold assign_hub_prefix.
    rewrite set_trait_hub_prefix_eq, Hold. cbn [same_value].
    by rewrite String.eqb_refl.
Qed.

(** The reference join under ["/base/"]. *)
Lemma join_pieces_under_base : joins_under calm_world "/base/".
Proof.
  intros x H1 H2 _. unfold well_formed. simpl. unfold join_pieces.
  rewrite H2.
  replace (strip_slash "/base/") with "base" by (vm_compute; reflexivity).
  replace (startswith "/base/" "/") with true by reflexivity.
  replace (String.eqb "base" "") with false by reflexivity.
  cbv zeta. cbv iota.
  destruct (String.eqb (strip_slash x) "").
  - vm_compute. done.
  - change ("/" +:+ "base" +:+ "/" +:+ strip_slash x)
      with ("/base/" +:+ strip_slash x).
    change (("/base/" +:+ strip_slash x) +:+ "/")
      with (String "/" (String "b" (String "a" (String "s" (String "e"
             (String "/" (strip_slash x +:+ "/"))))))).
    replace (String.eqb _ "//") with false by reflexivity.
    split; [|split].
    + reflexivity.
    + do 6 apply endswith_cons. apply endswith_app.
    + simpl. by destruct (_ +:+ _).
Qed.

Lemma hub_prefix_is_normalised_witness :
  ∃ s, hub_prefix (self (snd (assign_hub_prefix IPython3 2 "hub" based))) = Some s ∧
       startswith s "/" = true ∧ endswith s "/" = true ∧
       ((fst (assign_hub_prefix IPython3 2 "hub" based) = Ret tt ∧
         s = normalised calm_world (self based) "hub" ∧
         startswith s "/base/" = true ∧ s ≠ "/" ∧
         assign_hub_prefix IPython3 1 s (snd (assign_hub_prefix IPython3 2 "hub" based)) =
           (Ret tt, snd (assign_hub_prefix IPython3 2 "hub" based))) ∨
        (fst (assign_hub_prefix IPython3 2 "hub" based) = Raise bad_prefix ∧ s = "/")).
Proof.
  destruct (hub_prefix_is_normalised IPython3 based join_pieces_under_base)
    as (_ & _ & H & _).
  apply (H 0%nat "hub"). vm_compute. discriminate.
Defined.

Example assign_hub_under_base :
  hub_prefix (self (snd (assign_hub_prefix IPython2 2 "hub" based))) = Some "/base/hub/" ∧
  hub_prefix (self (snd (assign_hub_prefix IPython3 2 "hub" based))) = Some "/base/hub/".
Proof. vm_compute. done. Qed.

Example assign_empty_prefix :
  let r := assign_hub_prefix IPython2 2 "" (boot calm_world default_app) in
  fst r = Raise bad_prefix ∧ hub_prefix (self (snd r)) = Some "/".
Proof. vm_compute. done. Qed.

(** ** The watchdog *)

Lemma for_each_logged {A} (f : A → list Event) (body : A → M unit) (l : list A) :
  (∀ x st, body x st = (Ret tt, logged (f x) st)) →
  ∀ st, for_each l body st = (Ret tt, logged (concat (map f l)) st).
Proof.
  intros Hbody. induction l as [|x l IH]; intros st; simpl.
  - by rewrite logged_nil.
  - unfold mbind, M_bind, bind. rewrite Hbody, IH. by rewrite logged_logged.
Qed.

Lemma add_all_users_eq st s :
  db (self st) = Some s →
  add_all_users st = (Ret tt, logged (routes s) st).
Proof.
  intros Hdb. unfold add_all_users. munfold. rewrite Hdb. simpl.
  rewrite (for_each_logged
             (fun u => match orm.spawner u with Some _ => [EvAddRoute u] | None => [] end)).
  - f_equal. f_equal. unfold routes, with_spawner.
    induction (orm.query_users s) as [|u l IH]; [done|].
    simpl. rewrite filter_cons. case_decide as Hd.
    + destruct Hd as [sp Hsp]. rewrite Hsp. simpl. by rewrite IH.
    + destruct (orm.spawner u) eqn:E; [exfalso; eauto|]. done.
  - intros u st0. destruct (orm.spawner u); [done|]. by rewrite logged_nil.
Qed.

(** What a tick over an exited proxy logs, and the state it leaves. *)
Lemma check_proxy_exited st proc p h s c :
  proxy_process (self st) = Some proc →
  proxy (self st) = Some p →
  hub (self st) = Some h →
  db (self st) = Some s →
  observed st proc = Some c →
  let cmd := proxy_command (world st) (self st) p h in
  let env := <["CONFIGPROXY_AUTH_TOKEN" := orm.auth_token p]> (environ (world st)) in
  ∃ pid probing pp,
    StartEnd p (fst (check_proxy st)) probing ∧
    world (snd (check_proxy st)) = world st ∧
    self (snd (check_proxy st)) = set_proxy_process pp (self st) ∧
    events (snd (check_proxy st)) =
      events st ++
      [EvPoll (Some c); EvPoll (Some c);
       EvLog logging.error "Proxy stopped with exit code %i" [AInt c];
       EvLog logging.info "Starting proxy: %s" [AList cmd];
       EvPopen cmd env pid] ++
      probing ++
      match fst (check_proxy st) with
      | Ret _ =>
          [EvLog logging.info "Setting up routes on new proxy" []] ++
          routes s ++
          [EvLog logging.info "New proxy back up, and good to go" []]
      | _ => []
      end.
Proof.
  intros Hproc Hp Hh Hdb Ho cmd env. unfold check_proxy, mbind, M_bind, bind.
  rewrite (poll_eq st proc Hproc), Ho.
  set (st1 := polled st proc).
  rewrite (poll_eq st1 {| pid := pid proc; returncode := observed st proc |});
    [|reflexivity].
  assert (observed st1 {| pid := pid proc; returncode := observed st proc |} = Some c)
    as Ho1 by (unfold observed at 1; simpl; by rewrite Ho).
  rewrite Ho1. unfold log, emit. cbv beta iota.
  set (st2 := Build_State _ _ _).
  destruct (start_proxy_shape st2 p h Hp Hh) as (new & rc & He & Hev & Hw & Hs).
  destruct (start_proxy st2) as [r st3]. cbn [fst snd] in He, Hev, Hw, Hs.
  eexists _, new, _.
  assert (events (launched st2 p h) =
          events st ++
          [EvPoll (Some c); EvPoll (Some c);
           EvLog logging.error "Proxy stopped with exit code %i" [AInt c];
           EvLog logging.info "Starting proxy: %s" [AList cmd];
           EvPopen cmd env
             (spawn_pid (world st2) (length (events st2 ++
                [EvLog logging.info "Starting proxy: %s" [AList cmd]])))]) as Hl.
  { unfold launched, st2. simpl. rewrite Ho1, Ho. by rewrite <- !app_assoc. }
  destruct r as [[]|e|].
  - cbv beta iota. rewrite (add_all_users_eq _ s); [|simpl; by rewrite Hs].
    cbn [fst snd logged events self world]. split; [done|]. split; [done|].
    split; [rewrite Hs; reflexivity|].
    rewrite Hev, Hl, <- !app_assoc. reflexivity.
  - cbn [fst snd]. split; [done|]. split; [done|].
    split; [rewrite Hs; reflexivity|].
    rewrite Hev, Hl, <- !app_assoc. by rewrite app_nil_r.
  - inversion He.
Qed.

(** C7. A tick over a live proxy only polls it: nothing is launched and no
    route is added.  A tick over a proxy that has exited with status [c]
    launches the proxy once more, with the command line and the token of
    the same Proxy entity, probes it, and, only when that restart has
    returned, adds one route per known user with a backend; a restart
    that fails adds none. *)
Theorem check_proxy_restarts_once
    (st : State) (proc : Popen) (p : orm.Proxy) (h : orm.Hub) (s : orm.Session) :
  proxy_process (self st) = Some proc →
  proxy (self st) = Some p →
  hub (self st) = Some h →
  db (self st) = Some s →
  (observed st proc = None →
   check_proxy st = (Ret tt, logged [EvPoll None] st)) ∧
  (∀ c, observed st proc = Some c →
     let cmd := proxy_command (world st) (self st) p h in
     let env := <["CONFIGPROXY_AUTH_TOKEN" := orm.auth_token p]> (environ (world st)) in
     ∃ pid probing,
       StartEnd p (fst (check_proxy st)) probing ∧
       Forall is_probing probing ∧
       proxy (self (snd (check_proxy st))) = Some p ∧
       events (snd (check_proxy st)) =
         events st ++
         [EvPoll (Some c); EvPoll (Some c);
          EvLog logging.error "Proxy stopped with exit code %i" [AInt c];
          EvLog logging.info "Starting proxy: %s" [AList cmd];
          EvPopen cmd env pid] ++
         probing ++
         match fst (check_proxy st) with
         | Ret _ =>
             [EvLog logging.info "Setting up routes on new proxy" []] ++
             routes s ++
             [EvLog logging.info "New proxy back up, and good to go" []]
         | _ => []
         end).
Proof.
  intros Hproc Hp Hh Hdb. split.
  - intros Ho. unfold check_proxy, mbind, M_bind, bind.
    rewrite (poll_eq st proc Hproc), Ho. by rewrite polled_alive.
  - intros c Ho cmd env.
    destruct (check_proxy_exited st proc p h s c Hproc Hp Hh Hdb Ho)
      as (pid & probing & pp & He & Hw & Hs & Hev).
    exists pid, probing. split; [done|]. split; [by eapply StartEnd_probing|].
    split; [by rewrite Hs|done].
Qed.

Lemma check_proxy_restarts_once_witness :
  ∃ pid probing,
    StartEnd ready_proxy (fst (check_proxy serving)) probing ∧
    Forall is_probing probing ∧
    proxy (self (snd (check_proxy serving))) = Some ready_proxy ∧
    events (snd (check_proxy serving)) =
      events serving ++
      [EvPoll (Some 1); EvPoll (Some 1);
       EvLog logging.error "Proxy stopped with exit code %i" [AInt 1];
       EvLog logging.info "Starting proxy: %s"
         [AList (proxy_command (world serving) (self serving) ready_proxy ready_hub)];
       EvPopen (proxy_command (world serving) (self serving) ready_proxy ready_hub)
         (<["CONFIGPROXY_AUTH_TOKEN" := orm.auth_token ready_proxy]>
            (environ (world serving))) pid] ++
      probing ++
      match fst (check_proxy serving) with
      | Ret _ =>
          [EvLog logging.info "Setting up routes on new proxy" []] ++
          routes serving_session ++
          [EvLog logging.info "New proxy back up, and good to go" []]
      | _ => []
      end.
Proof.
  destruct (check_proxy_restarts_once serving {| pid := 4243; returncode := None |}
              ready_proxy ready_hub serving_session) as [_ H].
  - vm_compute. reflexivity.
  - vm_compute. reflexivity.
  - vm_compute. reflexivity.
  - vm_compute. reflexivity.
  - apply (H 1). vm_compute. reflexivity.
Defined.

Example tick_replays_routes :
  fst (check_proxy serving) = Ret tt ∧
  omap route_of (events (snd (check_proxy serving))) = ["alice"; "carol"] ∧
  length (filter (fun e => is_popen e = true) (events (snd (check_proxy serving)))) = 2%nat.
Proof. vm_compute. done. Qed.

(** ** Shutdown *)

Lemma await_stop_eq u st :
  await_stop u st =
  match stop_result (world st) (length (events st)) u with
  | Stopped => (Ret tt, logged [EvAwaitStop u Stopped] st)
  | StopFailed msg => (Raise (OtherError msg), logged [EvAwaitStop u (StopFailed msg)] st)
  | NeverResolves => (Hang, st)
  end.
Proof. unfold await_stop. munfold. simpl. by destruct (stop_result _ _ u). Qed.

Lemma for_each_await_stop users : ∀ st,
  for_each users await_stop st =
  (fst (awaits (world st) (length (events st)) users),
   logged (snd (awaits (world st) (length (events st)) users)) st).
Proof.
  induction users as [|u us IH]; intros st; simpl.
  - by rewrite logged_nil.
  - unfold mbind, M_bind, bind. rewrite await_stop_eq.
    destruct (stop_result (world st) (length (events st)) u) as [|msg|] eqn:E.
    + rewrite IH. simpl. rewrite length_app. simpl. rewrite Nat.add_1_r.
      destruct (awaits (world st) (S (length (events st))) us) as [r l]. simpl.
      by rewrite logged_logged.
    + done.
    + by rewrite logged_nil.
Qed.

Lemma cleanup_eq st s proc :
  db (self st) = Some s →
  proxy_process (self st) = Some proc →
  let a := self st in
  let w := world st in
  let st1 := logged (winding_down a s proc) st in
  let waited := awaits w (length (events st1)) (with_spawner (orm.query_users s)) in
  let st2 := logged (snd waited) st1 in
  cleanup st =
  match fst waited with
  | Ret _ => (Ret tt, logged (wrapping_up a (path_exists w (length (events st2)) (pid_file a))) st2)
  | r => (r, st2)
  end.
Proof.
  intros Hdb Hproc a w st1 waited st2.
  unfold cleanup. unfold mbind, M_bind, bind at 1. unfold log at 1, emit at 1.
  unfold mbind, M_bind, bind at 1. unfold get_self at 1.
  unfold mbind, M_bind, bind at 1. cbn [self]. rewrite Hdb. unfold attr at 1, ret at 1.
  unfold mbind, M_bind, bind at 1.
  rewrite (for_each_logged (fun u => [EvSpawnerStop u])); [|done].
  unfold mbind, M_bind, bind at 1. rewrite Hproc. unfold attr at 1, ret at 1.
  unfold mbind, M_bind, bind at 1. unfold log at 1, emit at 1.
  unfold mbind, M_bind, bind at 1. unfold emit at 1.
  unfold mbind, M_bind, bind at 1. rewrite for_each_await_stop.
  cbn [fst snd world events logged self].
  assert (∀ l : list orm.User, concat (map (fun u => [EvSpawnerStop u]) l) = map EvSpawnerStop l)
    as Hc by (induction l; simpl; congruence).
  rewrite Hc.
  assert ((((events st ++ [EvLog logging.info "Cleaning up single-user servers..." []]) ++
            map EvSpawnerStop (with_spawner (orm.query_users s))) ++
           [EvLog logging.info ("Cleaning up proxy[" +:+ str (pid proc) +:+ "]...") []]) ++
          [EvTerminate (pid proc)] = events st1) as ->.
  { unfold st1, logged, winding_down. simpl. by rewrite <- !app_assoc. }
  fold w. fold waited.
  destruct (fst waited) as [[]|e|] eqn:Ew; [|done..].
  munfold. cbn [fst snd world events logged self].
  unfold wrapping_up. fold a.
  change (events st1 ++ snd waited) with (events st2).
  destruct (truthy (pid_file a) && path_exists w (length (events st2)) (pid_file a));
    unfold logged, emit; simpl; by rewrite <- ?app_assoc.
Qed.

Lemma awaits_app w us1 rest : ∀ t,
  (∀ t v, v ∈ us1 → stop_result w t v = Stopped) →
  awaits w t (us1 ++ rest) =
  (fst (awaits w (t + length us1) rest),
   stopped_all us1 ++ snd (awaits w (t + length us1) rest)).
Proof.
  induction us1 as [|v us1 IH]; intros t Hs; simpl.
  - rewrite Nat.add_0_r. by destruct (awaits w t rest).
  - rewrite Hs by apply list_elem_of_here.
    rewrite IH by (intros; apply Hs; by apply list_elem_of_further).
    simpl. by replace (S (t + length us1))%nat with (t + S (length us1))%nat by lia.
Qed.

Lemma awaits_stopped w us t :
  (∀ t v, v ∈ us → stop_result w t v = Stopped) →
  awaits w t us = (Ret tt, stopped_all us).
Proof.
  intros Hs. rewrite <- (app_nil_r us) at 1. rewrite awaits_app by done.
  simpl. by rewrite app_nil_r.
Qed.

Example cleanup_when_all_stop :
  let r := cleanup (shutting_down Stopped) in
  fst r = Ret tt ∧
  terminated (events (snd r)) = [4243] ∧
  removed (events (snd r)) = ["/run/jupyterhub.pid"].
Proof. vm_compute. done. Qed.

(** C2, as stated, fails: with three users holding backends and the stop of
    one of them failing, [cleanup] raises that failure to its caller and
    the pid file stays; when that stop never resolves, [cleanup] never
    returns.  The proxy is terminated in both runs. *)
Lemma cleanup_stops_at_failed_stop :
  (let r := cleanup (shutting_down (StopFailed "backend would not stop")) in
   fst r = Raise (OtherError "backend would not stop") ∧
   terminated (events (snd r)) = [4243] ∧
   removed (events (snd r)) = []) ∧
  (let r := cleanup (shutting_down NeverResolves) in
   fst r = Hang ∧
   terminated (events (snd r)) = [4243] ∧
   removed (events (snd r)) = []).
Proof. vm_compute. done. Qed.

(** C2, amended.  [cleanup] requests the stop of every user with a backend
    and terminates the proxy before it waits for any stop, whatever the
    stops come to.  It then waits for the stops in turn: when all of them
    resolve, it removes the pid file (if one is configured and exists) and
    returns; the first stop that fails is raised to the caller of
    [cleanup], and one that never resolves leaves [cleanup] waiting; in
    both cases the later stops are not waited for and the pid file is not
    removed. *)
Theorem cleanup_waits_for_every_stop (st : State) (s : orm.Session) (proc : Popen) :
  db (self st) = Some s →
  proxy_process (self st) = Some proc →
  let a := self st in
  let w := world st in
  let users := with_spawner (orm.query_users s) in
  let st1 := logged (winding_down a s proc) st in
  (∃ rest, events (snd (cleanup st)) = events st ++ winding_down a s proc ++ rest) ∧
  ((∀ t v, v ∈ users → stop_result w t v = Stopped) →
   fst (cleanup st) = Ret tt ∧
   events (snd (cleanup st)) =
     events st1 ++ stopped_all users ++
     wrapping_up a (path_exists w (length (events st1) + length users) (pid_file a))) ∧
  (∀ us1 u us2, users = us1 ++ u :: us2 →
     (∀ t v, v ∈ us1 → stop_result w t v = Stopped) →
     (∀ msg, stop_result w (length (events st1) + length us1) u = StopFailed msg →
        fst (cleanup st) = Raise (OtherError msg) ∧
        events (snd (cleanup st)) =
          events st1 ++ stopped_all us1 ++ [EvAwaitStop u (StopFailed msg)]) ∧
     (stop_result w (length (events st1) + length us1) u = NeverResolves →
        fst (cleanup st) = Hang ∧
        events (snd (cleanup st)) = events st1 ++ stopped_all us1)).
Proof.
  intros Hdb Hproc a w users st1.
  pose proof (cleanup_eq st s proc Hdb Hproc) as Hc. cbv zeta in Hc.
  fold a w users st1 in Hc.
  split; [|split].
  - rewrite Hc. set (waited := awaits w (length (events st1)) users).
    destruct (fst waited) as [[]|e|]; cbn [snd logged events].
    + exists (snd waited ++ wrapping_up a
                (path_exists w (length (events (logged (snd waited) st1))) (pid_file a))).
      unfold st1. cbn [logged events]. by rewrite <- !app_assoc.
    + exists (snd waited). unfold st1. cbn [logged events]. by rewrite <- !app_assoc.
    + exists (snd waited). unfold st1. cbn [logged events]. by rewrite <- !app_assoc.
  - intros Hs. rewrite Hc. rewrite (awaits_stopped w users _ Hs).
    cbn [fst snd logged events]. split; [done|].
    rewrite length_app. unfold stopped_all at 2. rewrite length_map.
    by rewrite <- !app_assoc.
  - intros us1 u us2 Hu Hs. split.
    + intros msg Hf. rewrite Hc, Hu, (awaits_app w us1 (u :: us2) _ Hs).
      cbn [awaits]. rewrite Hf. cbn [fst snd logged events]. done.
    + intros Hf. rewrite Hc, Hu, (awaits_app w us1 (u :: us2) _ Hs).
      cbn [awaits]. rewrite Hf. cbn [fst snd logged events].
      by rewrite app_nil_r.
Qed.

Lemma cleanup_waits_for_every_stop_witness :
  ∃ rest,
    events (snd (cleanup (shutting_down NeverResolves))) =
    events (shutting_down NeverResolves) ++
    winding_down (self (shutting_down NeverResolves))
      (default (orm.new_session []) (db (self (shutting_down NeverResolves))))
      {| pid := 4243; returncode := None |} ++ rest.
Proof.
  destruct (cleanup_waits_for_every_stop (shutting_down NeverResolves)
              (default (orm.new_session []) (db (self (shutting_down NeverResolves))))
              {| pid := 4243; returncode := None |}) as [H _].
  - vm_compute. reflexivity.
  - vm_compute. reflexivity.
  - exact H.
Defined.

(** ** Start-up failures *)

Lemma probing_not_listen l :
  Forall is_probing l → Forall (fun e => is_listen e = false) l.
Proof. intros H. eapply Forall_impl; [exact H|]. by intros []. Qed.

(** Whatever [start_proxy] does, it binds nothing. *)
Lemma start_proxy_never_listens st :
  ∃ new, events (snd (start_proxy st)) = events st ++ new ∧
         Forall (fun e => is_listen e = false) new.
Proof.
  destruct (proxy (self st)) as [p|] eqn:Hp.
  - destruct (hub (self st)) as [h|] eqn:Hh.
    + destruct (start_proxy_shape st p h Hp Hh) as (new & rc & He & Hev & _).
      eexists. split.
      * rewrite Hev. unfold launched. cbn [events logged]. rewrite <- !app_assoc.
        reflexivity.
      * repeat constructor. apply probing_not_listen. by eapply StartEnd_probing.
    + exists []. unfold start_proxy. munfold. rewrite Hp, Hh. simpl.
      by rewrite app_nil_r.
  - exists []. unfold start_proxy. munfold. rewrite Hp. simpl. by rewrite app_nil_r.
Qed.

(** [start_proxy] raises an [Exception], never a [SystemExit]. *)
Lemma start_proxy_never_exits st c : fst (start_proxy st) ≠ Raise (SystemExit c).
Proof.
  destruct (proxy (self st)) as [p|] eqn:Hp.
  - destruct (hub (self st)) as [h|] eqn:Hh.
    + destruct (start_proxy_shape st p h Hp Hh) as (new & rc & He & _).
      intros Hr. rewrite Hr in He.
      assert (∀ s k tail, ¬ LoopEnd s 10 k (Raise (SystemExit c)) tail) as Hl
        by (intros s k tail Hx; inversion Hx).
      assert (∀ s l, ¬ ServerEnd s (Raise (SystemExit c)) l) as Hsv.
      { intros s l Hx. inversion Hx; subst. by eapply Hl. }
      inversion He; subst; by eapply Hsv.
    + unfold start_proxy. munfold. rewrite Hp, Hh. done.
  - unfold start_proxy. munfold. rewrite Hp. done.
Qed.

Lemma start_after_failed_proxy st e :
  generate_config (self st) = false →
  fst (start_proxy st) = Raise e →
  start st = (Ret tt, logged [failed_line] (snd (start_proxy st))).
Proof.
  intros Hg Hr. pose proof (start_proxy_never_exits st) as Hx.
  unfold start. unfold mbind, M_bind, bind at 1. unfold get_self at 1.
  rewrite Hg. unfold mbind, M_bind, bind at 1. unfold try_except.
  unfold mbind, M_bind, bind at 1.
  destruct (start_proxy st) as [r st1]. simpl in Hr, Hx. subst r.
  destruct e; try done. by destruct (Hx code).
Qed.

(** C3, as stated, fails for the failures of the proxy: when the proxy
    exits with status 17 at launch, and when it never answers, [main] logs
    the failure and returns, so that the process ends with status 0. *)
Lemma failed_proxy_exits_with_zero :
  (let st := snd (initialize (boot dies_with_17 default_app)) in
   fst (start_proxy st) = Raise (launch_error 17) ∧
   exit_code (fst (main (boot dies_with_17 default_app))) = Some 0) ∧
  (let st := snd (initialize (boot silent_world default_app)) in
   fst (start_proxy st) = Raise TimeoutError ∧
   exit_code (fst (main (boot silent_world default_app))) = Some 0).
Proof. vm_compute. done. Qed.

(** C3, amended.  A port conflict makes [main] exit with status 1 after a
    fatal line that carries the message of the conflict.  A failure of
    [start_proxy] (the launch error of an exited proxy, the timeout of an
    endpoint that never answers, or any other exception) makes [start] log
    the critical line "Failed to start proxy" and return normally, so that
    the exit status is 0.  In every one of these cases the hub never
    listens. *)
Theorem failed_startup_never_listens (st : State) :
  generate_config (self st) = false →
  (hub_port (self st) = port (self st) ∨
   hub_port (self st) = proxy_api_port_of (self st) ∨
   proxy_api_port_of (self st) = port (self st) →
   exit_code (fst (main st)) = Some 1 ∧
   ∃ msg new,
     fst (init_ports st) = Raise (TraitError msg) ∧
     events (snd (main st)) = events st ++ new ∧
     EvLog logging.fatal "%s" [AStr msg] ∈ new ∧
     Forall (fun e => is_listen e = false) new) ∧
  (∀ e, fst (start_proxy st) = Raise e →
     fst (start st) = Ret tt ∧
     exit_code (fst (start st)) = Some 0 ∧
     ∃ new,
       events (snd (start st)) = events st ++ new ++ [failed_line] ∧
       Forall (fun e => is_listen e = false) new).
Proof.
  intros Hg. split.
  - intros H. destruct (main_port_conflict st Hg H) as (msg & Hi & Hr & _ & Hev).
    rewrite Hr. split; [done|]. eexists msg, _. split; [done|]. split; [exact Hev|].
    split.
    + rewrite !elem_of_app. right. right.
      apply list_elem_of_further, list_elem_of_further, list_elem_of_here.
    + destruct (truthy (pid_file (self st))); repeat constructor.
  - intros e Hr. rewrite (start_after_failed_proxy st e Hg Hr).
    cbn [fst snd logged events exit_code].
    repeat split.
    destruct (start_proxy_never_listens st) as (new & Hev & Hq).
    exists new. rewrite Hev. split; [by rewrite <- app_assoc|done].
Qed.

Lemma failed_startup_never_listens_witness :
  fst (start doomed) = Ret tt ∧ exit_code (fst (start doomed)) = Some 0.
Proof.
  destruct (failed_startup_never_listens doomed) as [_ H].
  - reflexivity.
  - destruct (H (launch_error 17)) as (H1 & H2 & _).
    + vm_compute. reflexivity.
    + exact (conj H1 H2).
Defined.

(** ** The order of start-up *)

Lemma committed_before_app p l new :
  committed_before p l → committed_before p (l ++ new).
Proof. intros (f & H1 & H2). exists f. split; [|done]. apply elem_of_app. by left. Qed.

Lemma in_order_app l new e : in_order l e → in_order (l ++ new) e.
Proof.
  destruct e; simpl; try done.
  - intros (p & Hc & Ht & Hcmd). exists p.
    split; [by apply committed_before_app|done].
  - intros (p & Hc & H1 & H2). exists p.
    rewrite !elem_of_app. split; [by apply committed_before_app|]. by split; left.
Qed.

Lemma quiet_in_order l ev : quiet ev → in_order l ev.
Proof. intros [H1 H2]. by destruct ev. Qed.

Lemma ordered_nil : ordered [].
Proof. intros [|x before] e after H; discriminate H. Qed.

Lemma ordered_snoc l e : ordered l → in_order l e → ordered (l ++ [e]).
Proof.
  intros Hl He before e' after Heq.
  destruct after as [|x after _] using rev_ind.
  - apply app_inj_tail in Heq as [-> ->]. exact He.
  - rewrite app_comm_cons, app_assoc in Heq.
    apply app_inj_tail in Heq as [-> _]. by eapply Hl.
Qed.

Lemma ordered_quiet l new : ordered l → Forall quiet new → ordered (l ++ new).
Proof.
  intros Hl. induction new as [|e new IH] using rev_ind; intros Hq.
  - by rewrite app_nil_r.
  - apply Forall_app in Hq as [Hq He]. rewrite app_assoc.
    apply ordered_snoc; [by apply IH|].
    apply quiet_in_order. by inversion He.
Qed.

Lemma probing_quiet l : Forall is_probing l → Forall quiet l.
Proof. intros H. eapply Forall_impl; [exact H|]. by intros []. Qed.

Lemma settled_logged p l st : settled p st → Forall quiet l → settled p (logged l st).
Proof.
  intros (H1 & H2 & H3) Hq. split; [done|]. split.
  - by apply committed_before_app.
  - by apply ordered_quiet.
Qed.

Section keeps.
Context (p : orm.Proxy).

Lemma keeps_ret {A} (a : A) : keeps p (ret a).
Proof. by intros st H. Qed.

Lemma keeps_raise {A} e : keeps p (@raise A e).
Proof. by intros st H. Qed.

Lemma keeps_hang {A} : keeps p (@hang A).
Proof. by intros st H. Qed.

Lemma keeps_get_self : keeps p get_self.
Proof. by intros st H. Qed.

Lemma keeps_get_world : keeps p get_world.
Proof. by intros st H. Qed.

Lemma keeps_now : keeps p now.
Proof. by intros st H. Qed.

Lemma keeps_attr {A} name (o : option A) : keeps p (attr name o).
Proof. destruct o; [apply keeps_ret|apply keeps_raise]. Qed.

Lemma keeps_bind {A B} (m : M A) (k : A → M B) :
  keeps p m → (∀ a, keeps p (k a)) → keeps p (m ≫= k).
Proof.
  intros Hm Hk st H. unfold mbind, M_bind, bind.
  specialize (Hm st H). destruct (m st) as [[a|e|] st1]; simpl in *; [|done..].
  by apply Hk.
Qed.

Lemma keeps_emit e : quiet e → keeps p (emit e).
Proof.
  intros Hq st H. change (snd (emit e st)) with (logged [e] st).
  apply settled_logged; [done|]. by constructor.
Qed.

Lemma keeps_log level fmt args : keeps p (log level fmt args).
Proof. by apply keeps_emit. Qed.

Lemma keeps_for_each {A} (l : list A) (body : A → M unit) :
  (∀ x, keeps p (body x)) → keeps p (for_each l body).
Proof.
  intros Hb. induction l as [|x l IH]; simpl; [apply keeps_ret|].
  apply keeps_bind; [apply Hb|]. by intros _.
Qed.

Lemma keeps_fire (m : M unit) : keeps p m → keeps p (fire m).
Proof.
  intros Hm st H. unfold fire. specialize (Hm st H).
  by destruct (m st) as [[a|e|] st1].
Qed.

Lemma keeps_poll : keeps p poll.
Proof.
  intros st H. destruct (proxy_process (self st)) as [proc|] eqn:Hp.
  - rewrite (poll_eq st proc Hp). destruct H as (H1 & H2 & H3).
    split; [done|]. split; [by apply committed_before_app|].
    apply ordered_quiet; [done|]. by repeat constructor.
  - unfold poll. munfold. by rewrite Hp.
Qed.

Lemma keeps_start_proxy : keeps p start_proxy.
Proof.
  intros st H. pose proof H as (H1 & H2 & H3).
  destruct (hub (self st)) as [h|] eqn:Hh.
  - destruct (start_proxy_shape st p h H1 Hh) as (new & rc & He & Hev & Hw & Hs).
    split; [by rewrite Hs|]. rewrite Hev. unfold launched. cbn [events logged].
    split; [by do 3 apply committed_before_app|].
    apply ordered_quiet; [|by eapply probing_quiet, StartEnd_probing].
    apply ordered_snoc; [apply ordered_quiet; [done|by repeat constructor]|].
    exists p. split; [by apply committed_before_app|].
    split; [apply lookup_insert_eq|]. by eexists _, _, _.
  - unfold start_proxy. munfold. by rewrite H1, Hh.
Qed.

Lemma keeps_add_all_users : keeps p add_all_users.
Proof.
  apply keeps_bind; [apply keeps_get_self|]. intros a.
  apply keeps_bind; [apply keeps_attr|]. intros s.
  apply keeps_for_each. intros u.
  destruct (orm.spawner u); [by apply keeps_emit|apply keeps_ret].
Qed.

Lemma keeps_check_proxy : keeps p check_proxy.
Proof.
  apply keeps_bind; [apply keeps_poll|]. intros [c|]; [|apply keeps_ret].
  apply keeps_bind; [apply keeps_poll|]. intros status.
  apply keeps_bind; [apply keeps_log|]. intros _.
  apply keeps_bind; [apply keeps_start_proxy|]. intros _.
  apply keeps_bind; [apply keeps_log|]. intros _.
  apply keeps_bind; [apply keeps_add_all_users|]. intros _.
  apply keeps_log.
Qed.

Lemma keeps_loop_item i : keeps p (loop_item i).
Proof.
  destruct i as [|users]; [apply keeps_fire, keeps_check_proxy|].
  intros st H. unfold loop_item. munfold.
  destruct (db (self st)); by simpl.
Qed.

Lemma keeps_loop_start : keeps p loop_start.
Proof.
  apply keeps_bind; [by apply keeps_emit|]. intros _.
  apply keeps_bind; [apply keeps_get_world|]. intros w.
  apply keeps_for_each, keeps_loop_item.
Qed.

Lemma keeps_await_stop u : keeps p (await_stop u).
Proof.
  apply keeps_bind; [apply keeps_get_world|]. intros w.
  apply keeps_bind; [apply keeps_now|]. intros t.
  destruct (stop_result w t u).
  - by apply keeps_emit.
  - apply keeps_bind; [by apply keeps_emit|]. intros _. apply keeps_raise.
  - apply keeps_hang.
Qed.

Lemma keeps_cleanup : keeps p cleanup.
Proof.
  apply keeps_bind; [apply keeps_log|]. intros _.
  apply keeps_bind; [apply keeps_get_self|]. intros a.
  apply keeps_bind; [apply keeps_attr|]. intros s.
  apply keeps_bind; [apply keeps_for_each; intros u; by apply keeps_emit|]. intros _.
  apply keeps_bind; [apply keeps_attr|]. intros proc.
  apply keeps_bind; [apply keeps_log|]. intros _.
  apply keeps_bind; [by apply keeps_emit|]. intros _.
  apply keeps_bind; [apply keeps_for_each, keeps_await_stop|]. intros _.
  apply keeps_bind; [apply keeps_get_world|]. intros w.
  apply keeps_bind; [apply keeps_now|]. intros t.
  apply keeps_bind; [|intros _; apply keeps_log].
  destruct (truthy (pid_file a) && path_exists w t (pid_file a)); [|apply keeps_ret].
  apply keeps_bind; [apply keeps_log|]. intros _. by apply keeps_emit.
Qed.

End keeps.

Lemma calm_step_refl st : calm_step st st.
Proof. repeat split. exists []. by rewrite app_nil_r. Qed.

Lemma calm_step_trans st1 st2 st3 :
  calm_step st1 st2 → calm_step st2 st3 → calm_step st1 st3.
Proof.
  intros (W1 & G1 & l1 & E1 & Q1) (W2 & G2 & l2 & E2 & Q2).
  split; [congruence|]. split; [congruence|].
  exists (l1 ++ l2). rewrite E2, E1, app_assoc. split; [done|]. by apply Forall_app.
Qed.

Lemma calm_step_logged l st : Forall quiet l → calm_step st (logged l st).
Proof. intros Hq. repeat split. by exists l. Qed.

Lemma calm_emit e : quiet e → calm (emit e).
Proof.
  intros Hq st. change (snd (emit e st)) with (logged [e] st).
  apply calm_step_logged. by constructor.
Qed.

Lemma calm_bind {A B} (m : M A) (k : A → M B) :
  calm m → (∀ a, calm (k a)) → calm (m ≫= k).
Proof.
  intros Hm Hk st. unfold mbind, M_bind, bind.
  specialize (Hm st). destruct (m st) as [[a|e|] st1]; simpl in *; [|done..].
  eapply calm_step_trans; [exact Hm|apply Hk].
Qed.

Lemma calm_for_each {A} (l : list A) (body : A → M unit) :
  (∀ x, calm (body x)) → calm (for_each l body).
Proof.
  intros Hb. induction l as [|x l IH]; simpl; [intros st; apply calm_step_refl|].
  apply calm_bind; [apply Hb|]. by intros _.
Qed.

Lemma calm_db_add e : calm (db_add e).
Proof.
  intros st. unfold db_add. munfold. simpl.
  destruct (db (self st)); simpl; [|apply calm_step_refl].
  repeat split. exists [EvDbAdd e]. split; [done|]. by repeat constructor.
Qed.

Lemma calm_db_commit : calm db_commit.
Proof.
  intros st. unfold db_commit. munfold. simpl.
  destruct (db (self st)) as [s|]; simpl; [|apply calm_step_refl].
  repeat split. exists [EvDbCommit (orm.pending s)]. split; [done|]. by repeat constructor.
Qed.

Lemma calm_write_pid_file : calm write_pid_file.
Proof.
  intros st. unfold write_pid_file. munfold. simpl.
  destruct (truthy (pid_file (self st))); simpl; [|apply calm_step_refl].
  repeat split. eexists [_; _]. rewrite <- app_assoc. split; [done|].
  by repeat constructor.
Qed.

Lemma calm_init_ports : calm init_ports.
Proof.
  intros st. unfold init_ports. munfold.
  repeat match goal with |- context [if ?c then _ else _] => destruct c end;
    apply calm_step_refl.
Qed.

Lemma calm_init_db : calm init_db.
Proof.
  intros st. unfold init_db.
  unfold mbind, M_bind, bind at 1. unfold get_world at 1.
  unfold mbind, M_bind, bind at 1. unfold get_self at 1.
  unfold mbind, M_bind, bind at 1.
  change (emit ?e st) with (Ret tt, logged [e] st). cbv iota beta.
  set (st0 := logged _ st).
  assert (calm_step st st0) as H0 by (apply calm_step_logged; by repeat constructor).
  destruct (database (world st) (db_url (self st))) as [rows|msg]; [|exact H0].
  unfold mbind, M_bind, bind at 1. unfold put_self at 1.
  set (st1 := Build_State _ _ _).
  eapply (calm_step_trans _ st0); [exact H0|]. eapply (calm_step_trans _ st1).
  - repeat split. exists []. by rewrite app_nil_r.
  - apply (calm_bind (for_each _ _) (fun _ => db_commit)).
    + apply calm_for_each. intros name. apply calm_db_add.
    + intros _. apply calm_db_commit.
Qed.

Lemma calm_read_cookie_secret : calm read_cookie_secret.
Proof.
  intros st. unfold read_cookie_secret. munfold.
  destruct (cookie_secret (self st)); simpl; [apply calm_step_refl|].
  repeat split. exists []. by rewrite app_nil_r.
Qed.

Lemma calm_init_hub : calm init_hub.
Proof.
  apply calm_bind; [apply calm_read_cookie_secret|]. intros secret st.
  unfold db_add, db_commit. munfold. simpl.
  destruct (db (self st)) as [s|]; simpl.
  - repeat split. eexists [_; _]. rewrite <- app_assoc. split; [done|].
    by repeat constructor.
  - repeat split. exists []. by rewrite app_nil_r.
Qed.

(** What [init_proxy] leaves when it returns. *)
Lemma init_proxy_sets st :
  calm_step st (snd (init_proxy st)) ∧
  (fst (init_proxy st) = Ret tt →
   ∃ p, proxy (self (snd (init_proxy st))) = Some p ∧
        committed_before p (events (snd (init_proxy st)))).
Proof.
  unfold init_proxy, db_add, db_commit. munfold. simpl.
  destruct (db (self st)) as [s|] eqn:Hdb; simpl.
  - split.
    + repeat split. eexists [_; _]. rewrite <- app_assoc. split; [done|].
      by repeat constructor.
    + intros _. eexists. split; [done|]. eexists. split.
      * apply elem_of_app. right. apply list_elem_of_here.
      * apply elem_of_app. right. apply list_elem_of_here.
  - split; [|done]. repeat split. exists []. by rewrite app_nil_r.
Qed.

Lemma initialised_then (m k : M unit) st0 st :
  calm m →
  calm_step st0 st →
  (∀ st1, calm_step st0 st1 → initialised st0 (k st1)) →
  initialised st0 ((m;; k) st).
Proof.
  intros Hm H0 Hk. unfold mbind, M_bind, bind.
  specialize (Hm st). destruct (m st) as [[[]|e|] st1]; simpl in *.
  - apply Hk. by eapply calm_step_trans.
  - split; [by eapply calm_step_trans|done].
  - split; [by eapply calm_step_trans|done].
Qed.

Lemma initialize_body_eq st :
  initialize_body st =
  (if generate_config (self st) then ret tt
   else
     emit (EvLoadConfigFile (config_file (self st)));;
     write_pid_file;;
     init_logging;;
     init_ports;;
     init_db;;
     init_hub;;
     init_proxy;;
     init_handlers;;
     init_tornado_settings;;
     init_tornado_application) (logged [EvParseCommandLine] st).
Proof. reflexivity. Qed.

Lemma initialize_body_initialised st :
  generate_config (self st) = false →
  initialised st (initialize_body st).
Proof.
  intros Hg. rewrite initialize_body_eq, Hg.
  set (st1 := logged [EvParseCommandLine] st).
  assert (calm_step st st1) as H1 by (apply calm_step_logged; by repeat constructor).
  apply initialised_then; [by apply calm_emit|done|]. clear dependent st1. intros st1 H1.
  apply initialised_then; [apply calm_write_pid_file|done|]. clear dependent st1. intros st1 H1.
  apply initialised_then; [by apply (calm_emit EvInitLogging)|done|].
  clear dependent st1. intros st1 H1.
  apply initialised_then; [apply calm_init_ports|done|]. clear dependent st1. intros st1 H1.
  apply initialised_then; [apply calm_init_db|done|]. clear dependent st1. intros st1 H1.
  apply initialised_then; [apply calm_init_hub|done|]. clear dependent st1. intros st1 H1.
  destruct (init_proxy_sets st1) as [Hc Hp].
  unfold mbind, M_bind, bind at 1.
  destruct (init_proxy st1) as [[[]|e|] st2]; cbn [fst snd] in *.
  - destruct (Hp eq_refl) as (p & Hpp & Hcm).
    unfold init_handlers, init_tornado_settings, init_tornado_application. munfold.
    cbn [fst snd self events]. split.
    + eapply calm_step_trans; [exact H1|]. eapply calm_step_trans; [exact Hc|].
      repeat split. eexists [_; _; _]. rewrite <- !app_assoc. split; [done|].
      by repeat constructor.
    + intros _. exists p. split; [done|]. by do 3 apply committed_before_app.
  - split; [by eapply calm_step_trans|done].
  - split; [by eapply calm_step_trans|done].
Qed.

Lemma initialize_initialised st :
  generate_config (self st) = false →
  initialised st (initialize st).
Proof.
  intros Hg. destruct (initialize_body_initialised st Hg) as [Hc Hp].
  unfold initialize, catch_config_error.
  destruct (initialize_body st) as [[[]|e|] st1]; cbn [fst snd] in *; try done.
  destruct e; try done. munfold. cbn [fst snd]. split; [|done].
  eapply calm_step_trans; [exact Hc|].
  apply (calm_step_trans _ (logged [EvLog logging.fatal
           "Bad config encountered during initialization:" []] st1));
    [apply calm_step_logged; by repeat constructor|].
  apply (calm_step_logged [EvLog logging.fatal "%s" [AStr msg]]); by repeat constructor.
Qed.

Lemma calm_step_ordered st st' : calm_step st st' → ordered (events st) → ordered (events st').
Proof. intros (_ & _ & new & -> & Hq) Ho. by apply ordered_quiet. Qed.

(** [start], from a settled state, leaves an ordered log. *)
Lemma start_ordered p st :
  generate_config (self st) = false →
  settled p st →
  ordered (events (snd (start st))).
Proof.
  intros Hg Hs. pose proof (keeps_start_proxy p st Hs) as Hs1.
  pose proof (start_proxy_never_exits st) as Hx.
  destruct (fst (start_proxy st)) as [[]|e|] eqn:Hr.
  - (* the proxy is up: both endpoints have answered *)
    destruct Hs as (Hp & Hc & Ho).
    assert (∃ h, hub (self st) = Some h) as [h Hh].
    { destruct (hub (self st)) eqn:E; [eauto|].
      unfold start_proxy in Hr. munfold. by rewrite Hp, E in Hr. }
    destruct (start_proxy_both_up st p h Hp Hh Hr) as (l1 & l2 & Hev).
    unfold start. unfold mbind, M_bind, bind at 1. unfold get_self at 1. rewrite Hg.
    unfold mbind, M_bind, bind at 1. unfold try_except.
    unfold mbind, M_bind, bind at 1.
    destruct (start_proxy st) as [r st1]. cbn [fst snd] in *. subst r.
    unfold ret at 1. cbv iota beta.
    unfold mbind, M_bind, bind at 1. unfold emit at 1.
    unfold mbind, M_bind, bind at 1. unfold emit at 1. cbn [self world events].
    set (st2 := Build_State _ _ _).
    assert (settled p st2) as Hs2.
    { destruct Hs1 as (Hp1 & Hc1 & Ho1). split; [done|]. split.
      - by do 2 apply committed_before_app.
      - apply ordered_snoc; [apply ordered_quiet; [done|by repeat constructor]|].
        exists p. split; [by apply committed_before_app|].
        rewrite Hev, !elem_of_app. split.
        + left. right. right. left. apply list_elem_of_here.
        + left. right. right. right. right. left. apply list_elem_of_here. }
    assert (keeps p (loop_start;;
                     w ← get_world;
                     (if interrupted w then emit (EvPrint (newline +:+ "Interrupted"))
                      else ret tt);;
                     cleanup)) as Hk.
    { apply keeps_bind; [apply keeps_loop_start|]. intros _.
      apply keeps_bind; [apply keeps_get_world|]. intros w.
      apply keeps_bind; [|intros _; apply keeps_cleanup].
      destruct (interrupted w); [by apply keeps_emit|apply keeps_ret]. }
    by destruct (Hk st2 Hs2) as (_ & _ & ?).
  - rewrite (start_after_failed_proxy st e Hg Hr).
    apply (settled_logged p [failed_line]) in Hs1; [|by repeat constructor].
    by destruct Hs1 as (_ & _ & ?).
  - destruct (proxy (self st)) as [p'|] eqn:Hp.
    + destruct (hub (self st)) as [h|] eqn:Hh.
      * destruct (start_proxy_shape st p' h Hp Hh) as (new & rc & He & _).
        rewrite Hr in He. inversion He.
      * unfold start_proxy in Hr. munfold. by rewrite Hp, Hh in Hr.
    + unfold start_proxy in Hr. munfold. by rewrite Hp in Hr.
Qed.

(** C8. In every run of [main], whatever the world does: a launch of the
    proxy comes after a commit that made durable the Proxy whose token is in
    the environment of the launch and whose endpoints are on its command
    line, and the hub listens only after both endpoints of that Proxy have
    answered a probe. *)
Theorem startup_is_ordered (w : World) (a : JupyterHubApp) :
  ordered (events (snd (main (boot w a)))).
Proof.
  set (st := boot w a). unfold main. unfold mbind, M_bind, bind.
  destruct (generate_config (self st)) eqn:Hg.
  - (* --generate-config: the file is written and nothing is started *)
    unfold initialize, catch_config_error, initialize_body, start, write_config_file.
    munfold. cbn [self world events]. rewrite Hg. cbn [self world events]. rewrite Hg.
    cbn [snd events]. apply ordered_quiet; [apply ordered_quiet; [apply ordered_nil|]|];
      by repeat constructor.
  - destruct (initialize_initialised st Hg) as [Hc Hp].
    destruct (initialize st) as [[[]|e|] st1]; cbn [fst snd] in *.
    + destruct (Hp eq_refl) as (p & Hpp & Hcm).
      apply (start_ordered p).
      * destruct Hc as (_ & -> & _). exact Hg.
      * split; [done|]. split; [done|].
        apply (calm_step_ordered st); [done|apply ordered_nil].
    + apply (calm_step_ordered st); [done|apply ordered_nil].
    + apply (calm_step_ordered st); [done|apply ordered_nil].
Qed.

(** The log of a calm run holds one launch and one listen, so that the
    order above is about something; and a log that listens at once is not
    ordered. *)
Example calm_run_launches_and_listens :
  let l := events (snd (main (boot calm_world default_app))) in
  length (filter (fun e => is_popen e = true) l) = 1%nat ∧
  length (filter (fun e => is_listen e = true) l) = 1%nat.
Proof. vm_compute. done. Qed.

Example listening_at_once_is_out_of_order : ¬ ordered [EvListen 8081].
Proof.
  intros H. destruct (H [] (EvListen 8081) [] eq_refl) as (p & (f & Hf & _) & _).
  by apply elem_of_nil in Hf.
Qed.

(** ** The handler table *)

Lemma add_url_prefix_loop_map join prefix (rest : list Handler) : ∀ (seen : list Handler),
  add_url_prefix_loop join prefix (length rest) (length seen) (seen ++ rest) =
  seen ++ map (fun tup => with_pattern (join prefix (pattern tup)) tup) rest.
Proof.
  induction rest as [|tup rest IH]; intros seen; simpl; [done|].
  rewrite lookup_app_r by lia. rewrite Nat.sub_diag. simpl.
  rewrite insert_app_r_alt by lia. rewrite Nat.sub_diag. simpl.
  specialize (IH (seen ++ [with_pattern (join prefix (pattern tup)) tup])).
  rewrite length_app, Nat.add_1_r, <- app_assoc in IH. simpl in IH.
  rewrite IH. by rewrite <- app_assoc.
Qed.

Lemma add_url_prefix_map w prefix handlers :
  add_url_prefix w prefix handlers =
  map (fun tup => with_pattern (url_path_join w prefix (pattern tup)) tup) handlers.
Proof.
  unfold add_url_prefix.
  apply (add_url_prefix_loop_map (url_path_join w) prefix handlers []).
Qed.

(** X1. The in-place walk of [add_url_prefix] changes the patterns and nothing
    else: the handlers keep their number, their order, their classes and
    their kwargs, and every pattern is joined under the prefix. *)
Theorem add_url_prefix_changes_patterns_only (w : World) (prefix : string)
    (handlers : list Handler) :
  length (add_url_prefix w prefix handlers) = length handlers ∧
  map handler_class (add_url_prefix w prefix handlers) = map handler_class handlers ∧
  map kwargs (add_url_prefix w prefix handlers) = map kwargs handlers ∧
  map pattern (add_url_prefix w prefix handlers) =
    map (fun tup => url_path_join w prefix (pattern tup)) handlers.
Proof.
  rewrite add_url_prefix_map, length_map. split; [done|].
  rewrite <- !list_fmap_compose. repeat split; by apply list_fmap_ext.
Qed.

Lemma rstrip_slash_no_slash s : endswith (rstrip_slash s) "/" = false.
Proof.
  induction s as [|c s IH]; simpl; [done|].
  destruct (String.eqb_spec (rstrip_slash s) "") as [Hr|Hr]; simpl.
  - destruct (Ascii.eqb_spec c "/"%char) as [->|Hc]; simpl; [done|].
    rewrite Hr. simpl. destruct (Ascii.eqb_spec c "/"%char); [done|]. done.
  - rewrite IH. destruct (rstrip_slash s); [done|].
    simpl. by destruct (Ascii.eqb c "/"%char).
Qed.

Lemma rstrip_slash_slashes s : ∃ k, s = rstrip_slash s +:+ slashes k.
Proof.
  induction s as [|c s [k IH]]; simpl; [by exists 0%nat|].
  destruct (String.eqb_spec (rstrip_slash s) "") as [Hr|Hr]; simpl.
  - destruct (Ascii.eqb_spec c "/"%char) as [->|Hc]; simpl.
    + exists (S k). rewrite Hr in IH. simpl. by rewrite IH at 1.
    + exists k. by rewrite IH at 1.
  - exists k. by rewrite IH at 1.
Qed.

(** X2. The table that [init_handlers] builds: the default handlers, mounted
    under the hub prefix with their classes kept, then the redirect, the
    prefix redirect and, last of all, the catch-all 404. *)
Theorem handler_table_layout (w : World) (a : JupyterHubApp)
    (default_handlers api_handlers : list Handler) :
  let table := handler_table w a default_handlers api_handlers in
  let mounted := default_handlers ++ api_handlers in
  length table = (length default_handlers + length api_handlers + 3)%nat ∧
  take (length mounted) table =
    map (fun tup => with_pattern (url_path_join w (hub_prefix_of w a) (pattern tup)) tup)
      mounted ∧
  map handler_class (drop (length mounted) table) =
    ["web.RedirectHandler"; "handlers.PrefixRedirectHandler"; "handlers.Template404"] ∧
  last table =
    Some {| pattern := "(.*)"; handler_class := "handlers.Template404"; kwargs := None |}.
Proof.
  intros table mounted. unfold table, handler_table. simpl app at 1.
  fold mounted.
  pose proof (add_url_prefix_map w (hub_prefix_of w a) mounted) as Heq.
  assert (length (add_url_prefix w (hub_prefix_of w a) mounted) = length mounted) as Hlen
    by (by rewrite Heq, length_map).
  split; [|split; [|split]].
  - rewrite length_app, Hlen. unfold mounted. rewrite length_app. simpl. lia.
  - rewrite <- Hlen, take_app_length. exact Heq.
  - rewrite <- Hlen, drop_app_length. reflexivity.
  - rewrite last_app. reflexivity.
Qed.

(** X3. The redirect that [init_handlers] puts right after the mounted
    handlers matches the hub prefix without its trailing slashes and sends
    it, not permanently, to the hub prefix: the pattern never ends with a
    slash, the target is the pattern followed by slashes only, and when the
    hub prefix ends with a slash the pattern is not the target, so that the
    redirect does not send a path to itself. *)
Theorem redirect_pattern_has_no_trailing_slash (w : World) (a : JupyterHubApp)
    (default_handlers api_handlers : list Handler) :
  let table := handler_table w a default_handlers api_handlers in
  let target := hub_prefix_of w a in
  ∃ p k,
    table !! (length default_handlers + length api_handlers)%nat =
      Some {| pattern := p; handler_class := "web.RedirectHandler";
              kwargs := Some [("url", KStr target); ("permanent", KBool false)] |} ∧
    endswith p "/" = false ∧
    target = p +:+ slashes k ∧
    (endswith target "/" = false ∨ p ≠ target).
Proof.
  intros table target. destruct (rstrip_slash_slashes target) as [k Hk].
  exists (rstrip_slash target), k.
  pose proof (rstrip_slash_no_slash target) as Hn.
  split; [|split; [done|split; [done|]]].
  - unfold table, handler_table. simpl app at 1.
    rewrite lookup_app_r; rewrite add_url_prefix_map, length_map, length_app; [|lia].
    by rewrite Nat.sub_diag.
  - destruct (endswith target "/") eqn:He; [|by left]. right. congruence.
Qed.

(** ** The store after initialisation *)

Lemma for_each_db_add (names : list string) : ∀ st s,
  db (self st) = Some s →
  for_each names (fun name =>
    let user := {| orm.name := name; orm.admin := true; orm.spawner := None |} in
    db_add (orm.EUser user)) st =
  (Ret tt,
   {| self := set_db (Some {| orm.pending := orm.pending s ++ map (fun n => orm.EUser (admin_user n)) names;
                              orm.committed := orm.committed s |}) (self st);
      world := world st;
      events := events st ++ map (fun n => EvDbAdd (orm.EUser (admin_user n))) names |}).
Proof.
  induction names as [|n names IH]; intros st s Hdb; simpl.
  - rewrite !app_nil_r. destruct st as [a w ev], s. simpl in *. do 2 f_equal.
    destruct a; simpl in *. by rewrite Hdb.
  - unfold mbind, M_bind, bind, db_add at 1. munfold. rewrite Hdb. simpl.
    erewrite IH by reflexivity. simpl. unfold admin_user.
    by rewrite <- !app_assoc.
Qed.

Lemma init_db_eq st rows :
  database (world st) (db_url (self st)) = orm.Rows rows →
  init_db st =
  (Ret tt,
   {| self := set_db (Some {| orm.pending := [];
                              orm.committed :=
                                rows ++ map (fun n => orm.EUser (admin_user n))
                                          (admin_users (self st)) |}) (self st);
      world := world st;
      events := events st ++
        [EvNewSession (db_url (self st)) (debug_db (self st))] ++
        map (fun n => EvDbAdd (orm.EUser (admin_user n))) (admin_users (self st)) ++
        [EvDbCommit (map (fun n => orm.EUser (admin_user n)) (admin_users (self st)))] |}).
Proof.
  intros Hrows. unfold init_db.
  unfold mbind, M_bind, bind at 1. unfold get_world at 1.
  unfold mbind, M_bind, bind at 1. unfold get_self at 1.
  unfold mbind, M_bind, bind at 1. unfold emit at 1. rewrite Hrows.
  unfold mbind, M_bind, bind at 1. unfold put_self at 1.
  unfold mbind, M_bind, bind at 1.
  erewrite for_each_db_add by reflexivity.
  unfold db_commit. munfold. simpl. by rewrite <- !app_assoc.
Qed.

Lemma init_db_refused st msg :
  database (world st) (db_url (self st)) = orm.Refused msg →
  init_db st =
  (Raise (OtherError msg),
   logged [EvNewSession (db_url (self st)) (debug_db (self st))] st).
Proof. intros Hrows. unfold init_db. munfold. by rewrite Hrows. Qed.

Lemma omap_admin_users names :
  omap orm.user_of (map (fun n => orm.EUser (admin_user n)) names) = map admin_user names.
Proof.
  induction names as [|n names IH]; [done|].
  change (admin_user n :: omap orm.user_of (map (fun n => orm.EUser (admin_user n)) names) =
          admin_user n :: map admin_user names).
  by f_equal.
Qed.

(** X4. [init_db] opens the database at [db_url] and clears nothing.  When the
    database opens, [init_db] returns and the store holds the rows that
    were there, then one admin without a backend per name of [admin_users],
    in the order in which the names are iterated, all committed and nothing
    pending; a user that the database already held is added all the same.
    When the database cannot be opened, the exception leaves [init_db] and
    [self.db] is what it was. *)
Theorem init_db_keeps_the_stored_rows (st : State) :
  let a := self st in
  match database (world st) (db_url a) with
  | orm.Rows rows =>
      fst (init_db st) = Ret tt ∧
      ∃ s, db (self (snd (init_db st))) = Some s ∧
           orm.pending s = [] ∧
           orm.committed s =
             rows ++ map (fun n => orm.EUser (admin_user n)) (admin_users a) ∧
           orm.query_users s =
             omap orm.user_of rows ++ map admin_user (admin_users a)
  | orm.Refused msg =>
      fst (init_db st) = Raise (OtherError msg) ∧
      self (snd (init_db st)) = a
  end.
Proof.
  intros a. destruct (database (world st) (db_url a)) as [rows|msg] eqn:Hrows.
  - rewrite (init_db_eq st rows Hrows). split; [done|]. eexists.
    split; [reflexivity|]. split; [done|]. split; [done|].
    unfold orm.query_users. cbn [orm.pending orm.committed].
    by rewrite app_nil_r, omap_app, omap_admin_users.
  - by rewrite (init_db_refused st msg Hrows).
Qed.

(** A second run on the database of the first: the admin is stored twice. *)
Example init_db_on_a_used_database :
  let st := snd (init_db (boot reopened_world default_app)) in
  option_map orm.query_users (db (self st)) = Some [root; bob; root].
Proof. vm_compute. reflexivity. Qed.

(** A database that cannot be opened ends the run with a traceback. *)
Example init_db_on_a_locked_database :
  let r := main (boot locked_world default_app) in
  fst r = Raise (OtherError "unable to open database file") ∧
  exit_code (fst r) = Some 1 ∧
  db (self (snd r)) = None.
Proof. vm_compute. done. Qed.

Lemma read_cookie_secret_eq st :
  read_cookie_secret st =
  (Ret (cookie_secret_at (world st) (self st) (length (events st))),
   {| self := set_cookie_secret
                (Some (cookie_secret_at (world st) (self st) (length (events st)))) (self st);
      world := world st;
      events := events st |}).
Proof.
  unfold read_cookie_secret, cookie_secret_at. munfold.
  destruct (cookie_secret (self st)) as [c|] eqn:Hc; simpl; [|done].
  destruct st as [a w ev]. simpl in *. do 2 f_equal. destruct a; simpl in *. by rewrite Hc.
Qed.

(** X5. The cookie secret: a configured secret wins, then the value of
    [JPY_COOKIE_SECRET] in the environment, then a fresh random one; and the
    first read fixes it, so that a later read gives the same secret however
    the random source has moved on. *)
Theorem cookie_secret_is_read_once (st : State) :
  let w := world st in
  let v := cookie_secret_at w (self st) (length (events st)) in
  fst (read_cookie_secret st) = Ret v ∧
  (∀ c, cookie_secret (self st) = Some c → v = c) ∧
  (∀ e, cookie_secret (self st) = None → environ w !! "JPY_COOKIE_SECRET" = Some e → v = e) ∧
  (cookie_secret (self st) = None → environ w !! "JPY_COOKIE_SECRET" = None →
   v = random_hex w (length (events st)) 64) ∧
  (∀ l, fst (read_cookie_secret (logged l (snd (read_cookie_secret st)))) = Ret v).
Proof.
  intros w v. rewrite read_cookie_secret_eq. fold w v.
  split; [done|]. unfold v, cookie_secret_at.
  split; [by intros c ->|]. split; [by intros e -> ->|]. split; [by intros -> ->|].
  intros l. rewrite read_cookie_secret_eq. reflexivity.
Qed.

Lemma cookie_secret_is_read_once_witness :
  cookie_secret_at calm_world default_app 0 = "c0ffee".
Proof.
  destruct (cookie_secret_is_read_once (boot calm_world default_app)) as (_ & _ & _ & H & _).
  apply H; reflexivity.
Defined.

(** ** The default of the API port *)

(** X6. With [proxy_api_port] left to its default, one above the public port,
    the public and the API port never collide: validation fails exactly
    when the hub port is the public port or the one above it, and names
    the hub in both cases. *)
Theorem default_api_port_validation (st : State) :
  proxy_api_port (self st) = None →
  let a := self st in
  init_ports st =
    (if hub_port a =? port a
     then Raise (TraitError ("The hub and proxy cannot both listen on port " +:+ str (port a)))
     else if hub_port a =? port a + 1
     then Raise (TraitError ("The hub and proxy API cannot both listen on port "
                             +:+ str (hub_port a)))
     else Ret tt, st).
Proof.
  intros Hd a. unfold init_ports. munfold.
  assert (proxy_api_port_of (self st) = port a + 1) as ->
    by (unfold proxy_api_port_of; by rewrite Hd).
  fold a.
  destruct (hub_port a =? port a); [done|].
  destruct (hub_port a =? port a + 1); [done|].
  destruct (Z.eqb_spec (port a + 1) (port a)); [lia|done].
Qed.

Lemma default_api_port_validation_witness :
  fst (init_ports (boot calm_world default_app)) = Ret tt.
Proof. by rewrite (default_api_port_validation (boot calm_world default_app) eq_refl). Defined.

(** ** Generating the configuration *)



(** ** The pid file *)

(** X8. The pid file is written before the ports are validated: on a port
    conflict with [pid_file] configured, [main] exits after having written
    the pid of the process to it, and nothing removes it. *)
Theorem port_conflict_leaves_the_pid_file (st : State) :
  let a := self st in
  generate_config a = false →
  truthy (pid_file a) = true →
  hub_port a = port a ∨ hub_port a = proxy_api_port_of a ∨ proxy_api_port_of a = port a →
  fst (main st) = Raise (SystemExit 1) ∧
  ∃ new, events (snd (main st)) = events st ++ new ∧
         written new = [(pid_file a, str (getpid (world st)))] ∧
         removed new = [].
Proof.
  intros a Hg Hp Hc. destruct (main_port_conflict st Hg Hc) as (msg & _ & Hr & _ & Hev).
  split; [done|]. eexists. split; [exact Hev|]. fold a. rewrite Hp. done.
Qed.

Lemma port_conflict_leaves_the_pid_file_witness :
  fst (main clashing_with_pid_file) = Raise (SystemExit 1).
Proof.
  destruct (port_conflict_leaves_the_pid_file clashing_with_pid_file) as [H _].
  - reflexivity.
  - reflexivity.
  - left. reflexivity.
  - exact H.
Defined.

(** ** An endpoint that comes up late *)

(** [k] timed-out rounds, then an answer in round [k + 1]. *)
Lemma probe_loop_up_after k s : ∀ m st proc,
  proxy_process (self st) = Some proc →
  returncode proc = None →
  (∀ i, (i ≤ k)%nat → exit_status (world st) (length (events st) + 2 * i) = None) →
  (∀ i, (i < k)%nat →
     wait_up_result (world st) (length (events st) + 2 * i + 1) s 1 = TimedOut) →
  wait_up_result (world st) (length (events st) + 2 * k + 1) s 1 = Up →
  probe_loop (k + S m) s st =
  (Ret tt, logged (rounds k s ++ [EvPoll None; EvWaitUp s 1 Up]) st).
Proof.
  induction k as [|k IH]; intros m st proc Hp Hr Hx Ht Hu.
  - change (0 + S m)%nat with (S m). rewrite (probe_loop_S m s st proc Hp).
    unfold observed. rewrite Hr. specialize (Hx 0%nat (Nat.le_0_l _)).
    rewrite Nat.mul_0_r, Nat.add_0_r in Hx. rewrite Hx.
    cbv zeta. unfold answer. cbn [logged events world].
    rewrite length_app. cbn [length]. rewrite Nat.mul_0_r, Nat.add_0_r in Hu.
    rewrite Hu. by rewrite logged_logged.
  - change (S k + S m)%nat with (S (k + S m)). rewrite (probe_loop_S _ s st proc Hp).
    unfold observed. rewrite Hr. pose proof (Hx 0%nat (Nat.le_0_l _)) as Hx0.
    rewrite Nat.mul_0_r, Nat.add_0_r in Hx0. rewrite Hx0.
    cbv zeta. unfold answer. cbn [logged events world].
    rewrite length_app. cbn [length].
    pose proof (Ht 0%nat (Nat.lt_0_succ _)) as Ht0.
    rewrite Nat.mul_0_r, Nat.add_0_r in Ht0. rewrite Ht0.
    rewrite (IH m _ proc); [|done|done|..].
    + rewrite !logged_logged. rewrite rounds_S. unfold round. by rewrite <- !app_assoc.
    + intros i Hi. cbn [logged events world]. rewrite !length_app. cbn [length].
      replace (length (events st) + 1 + 1 + 2 * i)%nat
        with (length (events st) + 2 * S i)%nat by lia.
      apply Hx. lia.
    + intros i Hi. cbn [logged events world]. rewrite !length_app. cbn [length].
      replace (length (events st) + 1 + 1 + 2 * i + 1)%nat
        with (length (events st) + 2 * S i + 1)%nat by lia.
      apply Ht. lia.
    + cbn [logged events world]. rewrite !length_app. cbn [length].
      replace (length (events st) + 1 + 1 + 2 * k + 1)%nat
        with (length (events st) + 2 * S k + 1)%nat by lia.
      exact Hu.
Qed.

(** X9. An endpoint that answers inside the loop, after [k < 10] timed-out
    attempts, is probed once more after the [break]; it is the answer to
    that extra probe that decides: up again, the endpoint is accepted after
    [k + 2] probes; timed out, [TimeoutError] is raised although the
    endpoint had answered. *)
Theorem answer_in_the_loop_is_probed_again
    (st : State) (proc : Popen) (s : orm.Server) (k : nat) :
  proxy_process (self st) = Some proc →
  returncode proc = None →
  (k < 10)%nat →
  (∀ i, (i ≤ k)%nat → exit_status (world st) (length (events st) + 2 * i) = None) →
  (∀ i, (i < k)%nat →
     wait_up_result (world st) (length (events st) + 2 * i + 1) s 1 = TimedOut) →
  wait_up_result (world st) (length (events st) + 2 * k + 1) s 1 = Up →
  let r := wait_up_result (world st) (length (events st) + 2 * k + 2) s 1 in
  probe_server s st =
    (probe_outcome r,
     logged (rounds k s ++ [EvPoll None; EvWaitUp s 1 Up; EvWaitUp s 1 r]) st) ∧
  length (probes (rounds k s ++ [EvPoll None; EvWaitUp s 1 Up; EvWaitUp s 1 r])) = (k + 2)%nat.
Proof.
  intros Hp Hr Hk Hx Ht Hu r. split.
  - rewrite probe_server_eq.
    replace 10%nat with (k + S (9 - k))%nat by lia.
    rewrite (probe_loop_up_after k s (9 - k) st proc Hp Hr Hx Ht Hu).
    rewrite wait_up_eq. unfold answer. cbn [logged events world].
    assert (length (events st ++ rounds k s ++ [EvPoll None; EvWaitUp s 1 Up]) =
            (length (events st) + 2 * k + 2)%nat) as ->.
    { rewrite !length_app, length_rounds. simpl. lia. }
    fold r. rewrite logged_logged, <- app_assoc. by destruct r.
  - unfold probes. rewrite omap_app, length_app.
    assert (length (omap probe_of (rounds k s)) = k) as ->.
    { clear. induction k as [|k IH]; [done|].
      rewrite rounds_S, omap_app, length_app, IH. reflexivity. }
    simpl. lia.
Qed.

Lemma answer_in_the_loop_is_probed_again_witness :
  fst (probe_server (orm.public_server ready_proxy) just_launched) = Ret tt.
Proof.
  destruct (answer_in_the_loop_is_probed_again just_launched
              {| pid := 4243; returncode := None |} (orm.public_server ready_proxy) 3)
    as [H _].
  - vm_compute. reflexivity.
  - reflexivity.
  - lia.
  - intros i _. reflexivity.
  - intros i Hi. destruct i as [|[|[|i]]]; [vm_compute; reflexivity..|lia].
  - vm_compute. reflexivity.
  - rewrite H. vm_compute. reflexivity.
Defined.

(** ** What [cleanup] touches *)

Lemma awaits_removes_nothing w users : ∀ t,
  removed (snd (awaits w t users)) = [] ∧ terminated (snd (awaits w t users)) = [].
Proof.
  induction users as [|u users IH]; intros t; simpl; [done|].
  destruct (stop_result w t u); simpl; [|done..].
  specialize (IH (S t)). by destruct (awaits w (S t) users).
Qed.

Lemma winding_down_terminates a s proc :
  removed (winding_down a s proc) = [] ∧ terminated (winding_down a s proc) = [pid proc].
Proof.
  unfold winding_down, removed, terminated. rewrite !omap_app. simpl.
  assert (∀ l : list orm.User,
            omap (fun e => match e with EvRemoveFile path => Some path | _ => None end)
              (map EvSpawnerStop l) = [] ∧
            omap (fun e => match e with EvTerminate pid => Some pid | _ => None end)
              (map EvSpawnerStop l) = []) as Hs.
  { induction l as [|u l [IH1 IH2]]; [done|]. split; [exact IH1|exact IH2]. }
  destruct (Hs (with_spawner (orm.query_users s))) as [-> ->]. done.
Qed.

(** X10. Whatever the stops come to, [cleanup] terminates the current proxy
    process, once, and removes no file but the configured pid file: none at
    all when [pid_file] is empty or when a stop failed or never resolved. *)
Theorem cleanup_touches_only_its_own (st : State) (s : orm.Session) (proc : Popen) :
  db (self st) = Some s →
  proxy_process (self st) = Some proc →
  ∃ new,
    events (snd (cleanup st)) = events st ++ new ∧
    terminated new = [pid proc] ∧
    (removed new = [] ∨ removed new = [pid_file (self st)]) ∧
    (truthy (pid_file (self st)) = false → removed new = []) ∧
    (fst (cleanup st) ≠ Ret tt → removed new = []).
Proof.
  intros Hdb Hproc. rewrite (cleanup_eq st s proc Hdb Hproc). cbv zeta.
  set (a := self st). set (w := world st).
  set (st1 := logged (winding_down a s proc) st).
  set (waited := awaits w (length (events st1)) (with_spawner (orm.query_users s))).
  destruct (winding_down_terminates a s proc) as [Hr1 Ht1].
  destruct (awaits_removes_nothing w (with_spawner (orm.query_users s)) (length (events st1)))
    as [Hr2 Ht2]. fold waited in Hr2, Ht2.
  destruct (fst waited) as [[]|e|] eqn:Hw.
  - set (x := path_exists w _ _).
    exists (winding_down a s proc ++ snd waited ++ wrapping_up a x).
    split; [unfold st1; cbn [snd logged events]; by rewrite <- !app_assoc|].
    unfold removed, terminated in *. rewrite !omap_app, Hr1, Hr2, Ht1, Ht2.
    unfold wrapping_up. destruct (truthy (pid_file a)); destruct x; simpl;
      split_and!; auto; intros; congruence.
  - exists (winding_down a s proc ++ snd waited).
    split; [unfold st1; cbn [snd logged events]; by rewrite <- !app_assoc|].
    unfold removed, terminated in *. rewrite !omap_app, Hr1, Hr2, Ht1, Ht2. simpl.
    split_and!; auto.
  - exists (winding_down a s proc ++ snd waited).
    split; [unfold st1; cbn [snd logged events]; by rewrite <- !app_assoc|].
    unfold removed, terminated in *. rewrite !omap_app, Hr1, Hr2, Ht1, Ht2. simpl.
    split_and!; auto.
Qed.

Lemma cleanup_touches_only_its_own_witness :
  ∃ new,
    events (snd (cleanup (shutting_down Stopped))) = events (shutting_down Stopped) ++ new ∧
    terminated new = [4243].
Proof.
  destruct (cleanup_touches_only_its_own (shutting_down Stopped)
              (default (orm.new_session []) (db (self (shutting_down Stopped))))
              {| pid := 4243; returncode := None |}) as (new & H1 & H2 & _).
  - vm_compute. reflexivity.
  - vm_compute. reflexivity.
  - exists new. split; [exact H1|exact H2].
Defined.

(** ** The store after [initialize] *)

Lemma write_pid_file_eq st :
  write_pid_file st =
  (Ret tt,
   logged (if truthy (pid_file (self st))
           then [EvLog logging.debug "Writing PID %i to %s"
                   [AInt (getpid (world st)); AStr (pid_file (self st))];
                 EvWriteFile (pid_file (self st)) (str (getpid (world st)))]
           else []) st).
Proof.
  unfold write_pid_file. munfold. unfold logged.
  destruct (truthy (pid_file (self st))); simpl.
  - by rewrite <- app_assoc.
  - rewrite app_nil_r. by destruct st.
Qed.

Lemma init_hub_eq st s :
  db (self st) = Some s →
  let a := self st in
  let w := world st in
  let secret := cookie_secret_at w a (length (events st)) in
  let h := hub_entity w a secret in
  init_hub st =
  (Ret tt,
   {| self := set_db (Some (orm.commit (orm.add (orm.EHub h) s)))
                (set_hub (Some h) (set_cookie_secret (Some secret) a));
      world := w;
      events := events st ++
                [EvDbAdd (orm.EHub h); EvDbCommit (orm.pending s ++ [orm.EHub h])] |}).
Proof.
  intros Hdb a w secret h. subst a w secret h. unfold init_hub.
  unfold mbind, M_bind, bind at 1. rewrite read_cookie_secret_eq.
  unfold db_add, db_commit. munfold. cbn [self world events].
  unfold hub_entity, hub_prefix_of. simpl. rewrite Hdb. simpl.
  by rewrite <- app_assoc.
Qed.

Lemma init_proxy_eq st s :
  db (self st) = Some s →
  let a := self st in
  let p := proxy_entity a (new_token (world st) (length (events st))) in
  init_proxy st =
  (Ret tt,
   {| self := set_db (Some (orm.commit (orm.add (orm.EProxy p) s))) (set_proxy (Some p) a);
      world := world st;
      events := events st ++
                [EvDbAdd (orm.EProxy p); EvDbCommit (orm.pending s ++ [orm.EProxy p])] |}).
Proof.
  intros Hdb a p. subst a p. unfold init_proxy, db_add, db_commit. munfold. simpl.
  rewrite Hdb. simpl. by rewrite <- app_assoc.
Qed.

(** X11. With [generate_config] off, three distinct ports and a database
    that opens, [initialize] returns, and what it leaves is consistent: the
    store holds the rows that the database held, then the admin users,
    then the Hub, then the Proxy, all committed and nothing pending;
    [self.hub] and [self.proxy] are the stored ones; the Hub carries the
    cookie secret that the application keeps, and the Proxy the addresses
    that the ports were validated for. *)
Theorem initialize_adds_to_the_store (st : State) (rows : list orm.Entity) :
  let a := self st in
  let w := world st in
  let st' := snd (initialize st) in
  generate_config a = false →
  hub_port a ≠ port a → hub_port a ≠ proxy_api_port_of a → proxy_api_port_of a ≠ port a →
  database w (db_url a) = orm.Rows rows →
  fst (initialize st) = Ret tt ∧
  ∃ t1 t2 : nat,
    let h := hub_entity w a (cookie_secret_at w a t1) in
    let p := proxy_entity a (new_token w t2) in
    (length (events st) < t1 < t2)%nat ∧ (t2 < length (events st'))%nat ∧
    hub (self st') = Some h ∧
    proxy (self st') = Some p ∧
    cookie_secret (self st') = Some (cookie_secret_at w a t1) ∧
    db (self st') =
      Some {| orm.pending := [];
              orm.committed :=
                rows ++ map (fun n => orm.EUser (admin_user n)) (admin_users a) ++
                [orm.EHub h; orm.EProxy p] |}.
Proof.
  intros a w st' Hg H1 H2 H3 Hrows. subst st'.
  remember (initialize st) as res eqn:Hres.
  unfold initialize, catch_config_error in Hres.
  rewrite initialize_body_eq in Hres. fold a in Hres. rewrite Hg in Hres.
  set (st1 := logged [EvParseCommandLine] st) in Hres.
  unfold mbind, M_bind, bind at 1 in Hres.
  change (emit ?e st1) with (Ret tt, logged [e] st1) in Hres.
  cbv iota beta in Hres. set (st2 := logged _ st1) in Hres.
  unfold mbind, M_bind, bind at 1 in Hres. rewrite write_pid_file_eq in Hres.
  set (st3 := logged _ st2) in Hres.
  unfold mbind, M_bind, bind at 1 in Hres. unfold init_logging in Hres.
  change (emit ?e st3) with (Ret tt, logged [e] st3) in Hres.
  cbv iota beta in Hres. set (st4 := logged _ st3) in Hres.
  unfold mbind, M_bind, bind at 1 in Hres.
  rewrite init_ports_passes in Hres by assumption.
  unfold mbind, M_bind, bind at 1 in Hres.
  rewrite (init_db_eq st4 rows Hrows) in Hres.
  set (st5 := Build_State _ _ _) in Hres.
  unfold mbind, M_bind, bind at 1 in Hres.
  erewrite (init_hub_eq st5) in Hres by reflexivity.
  cbv zeta in Hres. set (st6 := Build_State _ _ _) in Hres.
  unfold mbind, M_bind, bind at 1 in Hres.
  erewrite (init_proxy_eq st6) in Hres by reflexivity.
  cbv zeta in Hres. set (st7 := Build_State _ _ _) in Hres.
  unfold init_handlers, init_tornado_settings, init_tornado_application in Hres.
  unfold mbind, M_bind, bind at 1 in Hres.
  change (emit ?e st7) with (Ret tt, logged [e] st7) in Hres.
  cbv iota beta in Hres. set (st8 := logged _ st7) in Hres.
  unfold mbind, M_bind, bind at 1 in Hres.
  change (emit ?e st8) with (Ret tt, logged [e] st8) in Hres.
  cbv iota beta in Hres. set (st9 := logged _ st8) in Hres.
  change (emit ?e st9) with (Ret tt, logged [e] st9) in Hres.
  subst res. cbn [fst snd]. split; [done|].
  exists (length (events st5)), (length (events st6)).
  unfold st9, st8, st7, st6, st5, st4, st3, st2, st1.
  cbn [logged events self world]. fold a w.
  split; [rewrite !length_app; simpl; lia|].
  split; [rewrite !length_app; simpl; lia|].
  unfold proxy_entity, hub_entity, cookie_secret_at, hub_prefix_of, proxy_api_port_of.
  destruct a; cbn. split_and!.
  - reflexivity.
  - reflexivity.
  - reflexivity.
  - unfold orm.commit, orm.add. cbn [orm.pending orm.committed app].
    by rewrite <- !app_assoc.
Qed.

Lemma initialize_adds_to_the_store_witness :
  fst (initialize (boot reopened_world operator_app)) = Ret tt.
Proof.
  destruct (initialize_adds_to_the_store (boot reopened_world operator_app)
              [orm.EUser root; orm.EUser bob]) as [H _].
  - reflexivity.
  - vm_compute. discriminate.
  - vm_compute. discriminate.
  - vm_compute. discriminate.
  - reflexivity.
  - exact H.
Defined.

(** ** The dialogue of [write_config_file] *)

Lemma ask_again_unclear prompt (pre : list dialogue.Key) : ∀ answer stdin,
  dialogue.decided answer = false →
  Forall dialogue.unclear pre →
  dialogue.ask_again prompt answer (pre ++ stdin) =
  (let (r, l) := dialogue.ask_until_decided prompt stdin in
   (r, dialogue.please :: (pre ≫= dialogue.asked_again prompt) ++ l)).
Proof.
  induction pre as [|k pre IH]; intros answer stdin Ha Hpre.
  - destruct stdin as [|k rest]; simpl; rewrite Ha; [done|].
    by destruct (dialogue.ask_again prompt (dialogue.answer_of k) rest).
  - apply Forall_cons in Hpre as [Hk Hpre].
    change ((k :: pre) ++ stdin) with (k :: (pre ++ stdin)).
    cbn [dialogue.ask_again]. rewrite Ha, (IH _ stdin Hk Hpre).
    destruct (dialogue.ask_until_decided prompt stdin) as [r l].
    f_equal. f_equal. f_equal. unfold dialogue.asked_again.
    cbn [mbind list_bind]. rewrite <- !app_assoc. cbn [app].
    by rewrite <- !app_assoc.
Qed.

Lemma ask_until_decided_unclear prompt (pre : list dialogue.Key) stdin :
  Forall dialogue.unclear pre →
  dialogue.ask_until_decided prompt (pre ++ stdin) =
  (let (r, l) := dialogue.ask_until_decided prompt stdin in
   (r, (pre ≫= dialogue.asked_again prompt) ++ l)).
Proof.
  intros Hpre. destruct pre as [|k pre].
  - simpl. by destruct (dialogue.ask_until_decided prompt stdin).
  - apply Forall_cons in Hpre as [Hk Hpre].
    change ((k :: pre) ++ stdin) with (k :: (pre ++ stdin)).
    cbn [dialogue.ask_until_decided]. rewrite (ask_again_unclear _ _ _ stdin Hk Hpre).
    destruct (dialogue.ask_until_decided prompt stdin) as [r l].
    f_equal. unfold dialogue.asked_again. cbn [mbind list_bind].
    rewrite <- !app_assoc. cbn [app]. by rewrite <- !app_assoc.
Qed.

Lemma decided_cases answer :
  dialogue.decided answer = true →
  startswith answer "n" = true ∧ startswith answer "y" = false ∨
  startswith answer "n" = false ∧ startswith answer "y" = true.
Proof.
  unfold dialogue.decided. destruct answer as [|c s]; [done|]. cbn [startswith].
  assert (startswith s "" = true) as -> by (by destruct s).
  destruct (Ascii.eqb_spec "y" c) as [Hy|Hy], (Ascii.eqb_spec "n" c) as [Hn|Hn];
    cbn [orb]; intros; subst; try congruence; auto.
Qed.

Lemma texts_asked_again prompt pre :
  dialogue.texts (pre ≫= dialogue.asked_again prompt) = [].
Proof.
  induction pre as [|k pre IH]; [done|]. cbn [mbind list_bind].
  unfold dialogue.texts in *. rewrite omap_app, IH. by destruct k.
Qed.

(** X12. When the config file exists and [answer_yes] is off, the first clear
    answer settles the overwrite: every unclear line before it is asked
    again, the keys after it are never read, and the file is written exactly
    when that answer starts with y in either case; Ctrl-C, an empty line
    and a line that starts with n leave the file alone. *)
Theorem first_clear_answer_settles_the_overwrite
    (config_file config_text : string) (pre : list dialogue.Key) (k : dialogue.Key)
    (rest : list dialogue.Key) :
  let prompt := "Overwrite " +:+ config_file +:+ " with default config? [y/N]" in
  Forall dialogue.unclear pre →
  dialogue.decided (dialogue.answer_of k) = true →
  dialogue.write_config_file config_file config_text true false (pre ++ k :: rest) =
  (Ret tt,
   (pre ≫= dialogue.asked_again prompt) ++
   dialogue.Input prompt :: dialogue.echo_of k ++
   (if startswith (dialogue.answer_of k) "n" then []
    else dialogue.writing config_file config_text)) ∧
  (dialogue.texts (snd (dialogue.write_config_file config_file config_text true false
                          (pre ++ k :: rest))) =
   if startswith (dialogue.answer_of k) "y" then [config_text] else []) ∧
  (k = dialogue.Interrupt ∨ k = dialogue.Line "" →
   startswith (dialogue.answer_of k) "y" = false).
Proof.
  intros prompt Hpre Hk.
  assert (dialogue.write_config_file config_file config_text true false (pre ++ k :: rest) =
          (Ret tt,
           (pre ≫= dialogue.asked_again prompt) ++
           dialogue.Input prompt :: dialogue.echo_of k ++
           (if startswith (dialogue.answer_of k) "n" then []
            else dialogue.writing config_file config_text))) as Heq.
  { unfold dialogue.write_config_file. cbn [andb negb]. fold prompt.
    rewrite (ask_until_decided_unclear prompt pre (k :: rest) Hpre).
    cbn [dialogue.ask_until_decided]. destruct rest as [|k' rest]; cbn [dialogue.ask_again];
      rewrite Hk; destruct (startswith (dialogue.answer_of k) "n");
      rewrite ?app_nil_r; try done; by rewrite <- !app_assoc. }
  split; [exact Heq|]. split.
  - rewrite Heq. cbn [snd]. unfold dialogue.texts.
    rewrite omap_app. fold (dialogue.texts (pre ≫= dialogue.asked_again prompt)).
    rewrite texts_asked_again.
    destruct (decided_cases _ Hk) as [[-> ->]|[-> ->]]; [by destruct k|].
    cbn [app]. by destruct k.
  - intros [->| ->]; done.
Qed.

Lemma first_clear_answer_settles_the_overwrite_witness :
  dialogue.texts (snd (dialogue.write_config_file "jupyter_hub_config.py" "c = get_config()"
    true false [dialogue.Line "maybe"; dialogue.Line "Yes"; dialogue.Line "no"])) =
  ["c = get_config()"].
Proof.
  destruct (first_clear_answer_settles_the_overwrite "jupyter_hub_config.py" "c = get_config()"
              [dialogue.Line "maybe"] (dialogue.Line "Yes") [dialogue.Line "no"])
    as (_ & H & _).
  - repeat constructor.
  - reflexivity.
  - exact H.
Defined.

(** X13. When the terminal ends before any clear answer, the EOFError of
    [raw_input] leaves [write_config_file], and the file is not written. *)
Theorem unanswered_overwrite_raises (config_file config_text : string)
    (stdin : list dialogue.Key) :
  Forall dialogue.unclear stdin →
  let res := dialogue.write_config_file config_file config_text true false stdin in
  fst res = Raise (OtherError "EOFError") ∧ dialogue.texts (snd res) = [].
Proof.
  intros Hpre. cbv zeta. unfold dialogue.write_config_file. cbn [andb negb].
  set (prompt := "Overwrite " +:+ config_file +:+ " with default config? [y/N]").
  rewrite <- (app_nil_r stdin), (ask_until_decided_unclear prompt stdin [] Hpre).
  cbn [dialogue.ask_until_decided fst snd]. split; [done|].
  unfold dialogue.texts. rewrite omap_app.
  fold (dialogue.texts (stdin ≫= dialogue.asked_again prompt)).
  by rewrite texts_asked_again.
Qed.

Lemma unanswered_overwrite_raises_witness :
  fst (dialogue.write_config_file "jupyter_hub_config.py" "c = get_config()" true false
         [dialogue.Line "maybe"; dialogue.Line "si"]) = Raise (OtherError "EOFError").
Proof.
  destruct (unanswered_overwrite_raises "jupyter_hub_config.py" "c = get_config()"
              [dialogue.Line "maybe"; dialogue.Line "si"]) as [H _].
  - repeat constructor.
  - exact H.
Defined.

(** ** Which process the shutdown terminates *)

Lemma bystanders_nil l :
  Forall (fun e => bystander e = true) l → launches l = [] ∧ terminated l = [].
Proof.
  induction 1 as [|e l He _ [IH1 IH2]]; [done|].
  unfold launches, terminated in *. destruct e; try done; by split.
Qed.

Lemma probing_bystander l : Forall is_probing l → Forall (fun e => bystander e = true) l.
Proof. intros H. eapply Forall_impl; [exact H|]. by intros []. Qed.

Lemma launches_app l1 l2 : launches (l1 ++ l2) = launches l1 ++ launches l2.
Proof. apply omap_app. Qed.

Lemma terminated_app l1 l2 : terminated (l1 ++ l2) = terminated l1 ++ terminated l2.
Proof. apply omap_app. Qed.

Lemma carries_on_refl st : carries_on st st.
Proof. exists []. by rewrite app_nil_r. Qed.

Lemma carries_on_trans st1 st2 st3 :
  carries_on st1 st2 → carries_on st2 st3 → carries_on st1 st3.
Proof.
  intros (l1 & E1 & T1 & K1) (l2 & E2 & T2 & K2). exists (l1 ++ l2).
  rewrite E2, E1, <- app_assoc, terminated_app, T1, T2. auto.
Qed.

Lemma carries_on_logged l st :
  Forall (fun e => bystander e = true) l → carries_on st (logged l st).
Proof.
  intros Hl. destruct (bystanders_nil l Hl) as [HL HT]. exists l.
  split; [done|]. split; [done|]. intros (proc & Hp & Hlast). exists proc.
  split; [done|]. cbn [logged events]. by rewrite launches_app, HL, app_nil_r.
Qed.

Lemma harmless_ret {A} (a : A) : harmless (ret a).
Proof. intros st. apply carries_on_refl. Qed.

Lemma harmless_raise {A} e : harmless (@raise A e).
Proof. intros st. apply carries_on_refl. Qed.

Lemma harmless_hang {A} : harmless (@hang A).
Proof. intros st. apply carries_on_refl. Qed.

Lemma harmless_get_self : harmless get_self.
Proof. intros st. apply carries_on_refl. Qed.

Lemma harmless_get_world : harmless get_world.
Proof. intros st. apply carries_on_refl. Qed.

Lemma harmless_attr {A} name (o : option A) : harmless (attr name o).
Proof. destruct o; [apply harmless_ret|apply harmless_raise]. Qed.

Lemma harmless_bind {A B} (m : M A) (k : A → M B) :
  harmless m → (∀ a, harmless (k a)) → harmless (m ≫= k).
Proof.
  intros Hm Hk st. unfold mbind, M_bind, bind.
  specialize (Hm st). destruct (m st) as [[a|e|] st1]; cbn [snd] in *; [|done..].
  eapply carries_on_trans; [exact Hm|apply Hk].
Qed.

Lemma harmless_emit e : bystander e = true → harmless (emit e).
Proof.
  intros He st. change (snd (emit e st)) with (logged [e] st).
  apply carries_on_logged. by constructor.
Qed.

Lemma harmless_log level fmt args : harmless (log level fmt args).
Proof. by apply harmless_emit. Qed.

Lemma harmless_for_each {A} (l : list A) (body : A → M unit) :
  (∀ x, harmless (body x)) → harmless (for_each l body).
Proof.
  intros Hb. induction l as [|x l IH]; simpl; [apply harmless_ret|].
  apply harmless_bind; [apply Hb|]. by intros _.
Qed.

Lemma harmless_fire (m : M unit) : harmless m → harmless (fire m).
Proof.
  intros Hm st. unfold fire. specialize (Hm st).
  by destruct (m st) as [[a|e|] st1].
Qed.

Lemma harmless_poll : harmless poll.
Proof.
  intros st. destruct (proxy_process (self st)) as [proc|] eqn:Hp.
  - rewrite (poll_eq st proc Hp). exists [EvPoll (observed st proc)].
    split; [done|]. split; [done|]. intros (proc' & Hp' & Hlast).
    rewrite Hp in Hp'. injection Hp' as <-. eexists. split; [reflexivity|].
    unfold polled. cbn [snd events pid]. rewrite launches_app.
    change (launches [EvPoll (observed st proc)]) with (@nil Z). by rewrite app_nil_r.
  - unfold poll. munfold. rewrite Hp. apply carries_on_refl.
Qed.

(** [start_proxy] either raises before the launch and changes nothing, or
    launches, and then [self.proxy_process] is the launched process. *)
Lemma start_proxy_launches st :
  ∃ new, events (snd (start_proxy st)) = events st ++ new ∧
         terminated new = [] ∧
         ((new = [] ∧ self (snd (start_proxy st)) = self st ∧
           fst (start_proxy st) ≠ Ret tt) ∨
          (last (launches new) ≠ None ∧ tracked (snd (start_proxy st)))).
Proof.
  destruct (proxy (self st)) as [p|] eqn:Hp.
  - destruct (hub (self st)) as [h|] eqn:Hh.
    + destruct (start_proxy_shape st p h Hp Hh) as (new & rc & He & Hev & _ & Hs).
      apply StartEnd_probing, probing_bystander, bystanders_nil in He as [HL HT].
      eexists. split; [|split].
      * rewrite Hev. unfold launched. cbn [events logged]. rewrite <- !app_assoc.
        reflexivity.
      * rewrite !terminated_app, HT. done.
      * right. rewrite !launches_app, HL. split; [done|].
        eexists. rewrite Hs. split; [reflexivity|].
        rewrite Hev. unfold launched. cbn [events logged pid].
        rewrite !launches_app, HL, app_nil_r, length_app, Nat.add_1_r.
        apply last_snoc.
    + exists []. unfold start_proxy. munfold. rewrite Hp, Hh. simpl.
      rewrite app_nil_r. auto 6.
  - exists []. unfold start_proxy. munfold. rewrite Hp. simpl.
    rewrite app_nil_r. auto 6.
Qed.

Lemma harmless_start_proxy : harmless start_proxy.
Proof.
  intros st. destruct (start_proxy_launches st) as (new & Hev & HT & [(-> & Hs & _)|[_ Ht]]).
  - exists []. split; [done|]. split; [done|]. intros (proc & Hp & Hlast).
    exists proc. rewrite Hs, Hev, app_nil_r. done.
  - exists new. auto.
Qed.

Lemma harmless_add_all_users : harmless add_all_users.
Proof.
  apply harmless_bind; [apply harmless_get_self|]. intros a.
  apply harmless_bind; [apply harmless_attr|]. intros s.
  apply harmless_for_each. intros u.
  destruct (orm.spawner u); [by apply harmless_emit|apply harmless_ret].
Qed.

Lemma harmless_check_proxy : harmless check_proxy.
Proof.
  apply harmless_bind; [apply harmless_poll|]. intros [c|]; [|apply harmless_ret].
  apply harmless_bind; [apply harmless_poll|]. intros status.
  apply harmless_bind; [apply harmless_log|]. intros _.
  apply harmless_bind; [apply harmless_start_proxy|]. intros _.
  apply harmless_bind; [apply harmless_log|]. intros _.
  apply harmless_bind; [apply harmless_add_all_users|]. intros _.
  apply harmless_log.
Qed.

Lemma harmless_loop_item i : harmless (loop_item i).
Proof.
  destruct i as [|users]; [apply harmless_fire, harmless_check_proxy|].
  intros st. unfold loop_item. munfold.
  destruct (db (self st)) as [s|]; simpl; [|apply carries_on_refl].
  exists []. cbn [events]. rewrite app_nil_r. split; [done|]. split; [done|].
  intros (proc & Hp & Hl). by exists proc.
Qed.

Lemma harmless_loop_start : harmless loop_start.
Proof.
  apply harmless_bind; [by apply harmless_emit|]. intros _.
  apply harmless_bind; [apply harmless_get_world|]. intros w.
  apply harmless_for_each, harmless_loop_item.
Qed.

Lemma spawner_stops_bystanders (l : list orm.User) :
  Forall (fun e => bystander e = true) (map EvSpawnerStop l).
Proof. induction l; by constructor. Qed.

(** The log of [cleanup], split at its terminate. *)
Lemma cleanup_split st s proc :
  db (self st) = Some s →
  proxy_process (self st) = Some proc →
  ∃ before after,
    events (snd (cleanup st)) = events st ++ before ++ EvTerminate (pid proc) :: after ∧
    launches before = [] ∧ terminated before = [] ∧ terminated after = [].
Proof.
  intros Hdb Hproc. rewrite (cleanup_eq st s proc Hdb Hproc). cbv zeta.
  set (a := self st). set (w := world st).
  set (st1 := logged (winding_down a s proc) st).
  set (waited := awaits w (length (events st1)) (with_spawner (orm.query_users s))).
  destruct (awaits_removes_nothing w (with_spawner (orm.query_users s)) (length (events st1)))
    as [_ Ht2]. fold waited in Ht2.
  set (before := [EvLog logging.info "Cleaning up single-user servers..." []] ++
                 map EvSpawnerStop (with_spawner (orm.query_users s)) ++
                 [EvLog logging.info ("Cleaning up proxy[" +:+ str (pid proc) +:+ "]...") []]).
  assert (winding_down a s proc = before ++ [EvTerminate (pid proc)]) as Hwd
    by (unfold winding_down, before; by rewrite <- !app_assoc).
  assert (launches before = [] ∧ terminated before = []) as [HL HT].
  { apply bystanders_nil. unfold before. rewrite !Forall_app.
    split; [by repeat constructor|]. split; [apply spawner_stops_bystanders|].
    by repeat constructor. }
  exists before.
  destruct (fst waited) as [[]|e|] eqn:Hw.
  - set (x := path_exists w _ _). exists (snd waited ++ wrapping_up a x).
    split; [|split; [done|split; [done|]]].
    + unfold st1. cbn [snd logged events]. rewrite Hwd, <- !app_assoc. done.
    + rewrite terminated_app, Ht2. unfold wrapping_up.
      by destruct (truthy (pid_file a) && x).
  - exists (snd waited). split; [|done].
    unfold st1. cbn [snd logged events]. rewrite Hwd, <- !app_assoc. done.
  - exists (snd waited). split; [|done].
    unfold st1. cbn [snd logged events]. rewrite Hwd, <- !app_assoc. done.
Qed.

Lemma cleanup_without_store st :
  db (self st) = None →
  events (snd (cleanup st)) =
  events st ++ [EvLog logging.info "Cleaning up single-user servers..." []].
Proof. intros Hdb. unfold cleanup. munfold. simpl. by rewrite Hdb. Qed.

Lemma tracked_last st l :
  tracked st → events st = l →
  ∃ proc, proxy_process (self st) = Some proc ∧ last (launches l) = Some (pid proc).
Proof. intros (proc & Hp & Hlast) <-. eauto. Qed.

(** [cleanup] from a state that keeps track of the proxy process. *)
Lemma cleanup_aims st base sofar :
  tracked st →
  events st = base ++ sofar →
  last (launches sofar) ≠ None →
  terminated sofar = [] →
  ∃ new, events (snd (cleanup st)) = base ++ new ∧
    (terminated new = [] ∨
     ∃ before p after,
       new = before ++ EvTerminate p :: after ∧
       last (launches before) = Some p ∧
       terminated before = [] ∧ terminated after = []).
Proof.
  intros (proc & Hp & Hlast) Hev Hne HT.
  destruct (db (self st)) as [s|] eqn:Hdb.
  - destruct (cleanup_split st s proc Hdb Hp) as (before & after & Hc & HL & HTb & HTa).
    exists (sofar ++ before ++ EvTerminate (pid proc) :: after).
    split; [by rewrite Hc, Hev, <- !app_assoc|]. right.
    exists (sofar ++ before), (pid proc), after.
    split; [by rewrite <- !app_assoc|]. split; [|split; [|done]].
    + rewrite Hev, launches_app, last_app in Hlast.
      rewrite launches_app, HL, app_nil_r.
      destruct (last (launches sofar)); [done|]. by destruct Hne.
    + by rewrite terminated_app, HT, HTb.
  - exists (sofar ++ [EvLog logging.info "Cleaning up single-user servers..." []]).
    split; [by rewrite (cleanup_without_store st Hdb), Hev, <- !app_assoc|]. left.
    by rewrite terminated_app, HT.
Qed.

(** The shutdown after the loop: an interrupt is announced, then [cleanup]
    runs. *)
Lemma shutdown_split st base sofar :
  tracked st →
  events st = base ++ sofar →
  last (launches sofar) ≠ None →
  terminated sofar = [] →
  let res := (w ← get_world;
              (if interrupted w then emit (EvPrint (newline +:+ "Interrupted")) else ret tt);;
              cleanup) st in
  ∃ new, events (snd res) = base ++ new ∧
    (terminated new = [] ∨
     ∃ before p after,
       new = before ++ EvTerminate p :: after ∧
       last (launches before) = Some p ∧
       terminated before = [] ∧ terminated after = []).
Proof.
  intros Ht Hev Hne HT res. subst res.
  unfold mbind, M_bind, bind at 1. unfold get_world at 1. cbv iota beta.
  unfold mbind, M_bind, bind at 1.
  destruct (interrupted (world st)).
  - change (emit ?e st) with (Ret tt, logged [e] st). cbv iota beta.
    set (l := [EvPrint (newline +:+ "Interrupted")]).
    assert (Forall (fun e => bystander e = true) l) as Hl by (by repeat constructor).
    destruct (bystanders_nil l Hl) as [HLl HTl].
    destruct (carries_on_logged l st Hl) as (_ & _ & _ & Hk).
    apply (cleanup_aims (logged l st) base (sofar ++ l)).
    + by apply Hk.
    + cbn [logged events]. by rewrite Hev, <- app_assoc.
    + by rewrite launches_app, HLl, app_nil_r.
    + by rewrite terminated_app, HT, HTl.
  - change (ret tt st) with (Ret tt, st). cbv iota beta.
    by apply (cleanup_aims st base sofar).
Qed.

(** X14. In every run of [start], whatever the world does and however often the
    proxy was relaunched: at most one process is terminated, at shutdown,
    and it is the process of the last launch before it, the one that
    [self.proxy_process] holds, never a process that a relaunch has
    replaced. *)
Theorem shutdown_terminates_the_last_launch (st : State) :
  ∃ new, events (snd (start st)) = events st ++ new ∧
    (terminated new = [] ∨
     ∃ before p after,
       new = before ++ EvTerminate p :: after ∧
       last (launches before) = Some p ∧
       terminated before = [] ∧ terminated after = []).
Proof.
  destruct (generate_config (self st)) eqn:Hg.
  { exists [EvWriteConfigFile (config_file (self st))]. split; [|by left].
    unfold start, write_config_file. munfold. by rewrite Hg. }
  destruct (start_proxy_launches st) as (new1 & Hev1 & HT1 & Hcase).
  destruct (fst (start_proxy st)) as [[]|e|] eqn:Hr.
  - destruct Hcase as [(_ & _ & Hx)|[Hne Ht1]]; [done|].
    unfold start. unfold mbind, M_bind, bind at 1. unfold get_self at 1. rewrite Hg.
    unfold mbind, M_bind, bind at 1. unfold try_except.
    unfold mbind, M_bind, bind at 1.
    destruct (start_proxy st) as [r st1]. cbn [fst snd] in *. subst r.
    unfold ret at 1. cbv iota beta.
    unfold mbind, M_bind, bind at 1. unfold emit at 1.
    unfold mbind, M_bind, bind at 1. unfold emit at 1. cbn [self world events].
    set (st2 := Build_State _ _ _).
    set (l2 := [EvPeriodicCallback (proxy_check_interval (self st));
                EvListen (hub_port (self st))]).
    assert (carries_on st1 st2) as H12.
    { replace st2 with (logged l2 st1)
        by (unfold st2, logged, l2; by rewrite <- app_assoc).
      apply carries_on_logged. by repeat constructor. }
    unfold mbind, M_bind, bind at 1.
    pose proof (harmless_loop_start st2) as H23.
    destruct (carries_on_trans _ _ _ H12 H23) as (new3 & Hev3 & HT3 & Hk3).
    destruct (loop_start st2) as [[[]|e|] st3]; cbn [snd] in *.
    + apply (shutdown_split st3 (events st) (new1 ++ new3)).
      * by apply Hk3.
      * by rewrite Hev3, Hev1, <- app_assoc.
      * rewrite launches_app, last_app. by destruct (last (launches new3)).
      * by rewrite terminated_app, HT1, HT3.
    + exists (new1 ++ new3). split; [by rewrite Hev3, Hev1, <- app_assoc|].
      left. by rewrite terminated_app, HT1, HT3.
    + exists (new1 ++ new3). split; [by rewrite Hev3, Hev1, <- app_assoc|].
      left. by rewrite terminated_app, HT1, HT3.
  - rewrite (start_after_failed_proxy st e Hg Hr). exists (new1 ++ [failed_line]).
    cbn [snd logged events]. rewrite Hev1, <- app_assoc. split; [done|].
    left. by rewrite terminated_app, HT1.
  - exists new1. split; [|by left].
    unfold start. unfold mbind, M_bind, bind at 1. unfold get_self at 1. rewrite Hg.
    unfold mbind, M_bind, bind at 1. unfold try_except.
    unfold mbind, M_bind, bind at 1.
    destruct (start_proxy st) as [r st1]. cbn [fst snd] in *. by subst r.
Qed.

(** A run with one relaunch: two processes are launched, and the shutdown
    terminates the second. *)
Example relaunched_proxy_is_the_one_terminated :
  let l := events (snd (main (boot relaunching_world default_app))) in
  launches l = [4014; 4029] ∧ terminated l = [4029].
Proof. vm_compute. done. Qed.
